(** * Package [encrypt]: AES-256-GCM helpers with a base64 envelope

    A shallow embedding of [encrypt/encrypt.go] together with the parts of
    the Go standard library the package calls: [encoding/base64]
    (StdEncoding), [crypto/aes], [crypto/cipher] (GCM), [io.ReadFull] over
    [crypto/rand.Reader], [errors.New] and [fmt.Errorf] with [%w]. *)

From Stdlib.Strings Require Import String Byte.
From Stdlib Require Import ZArith List Bool Lia DecimalString.
Import ListNotations.

Local Open Scope Z_scope.
Local Open Scope bool_scope.

(** ** Go values *)

(** A Go [[]byte]; a [nil] slice and an empty slice are both the empty list. *)
Definition bytes := list byte.

(** [uint(b)] for a byte [b]. *)
Definition byte_to_Z (b : byte) : Z := Z.of_N (Byte.to_N b).

(** [byte(x)]: the conversion keeps the low eight bits. *)
Definition byte_of_Z (z : Z) : byte :=
  match Byte.of_N (Z.to_N (z mod 256)) with
  | Some b => b
  | None => x00
  end.

(** [len(s)] as a Go [int]. *)
Definition len {A : Type} (s : list A) : Z := Z.of_nat (length s).

(** The values of Go's [error] interface that can reach this package. *)
Inductive error : Type :=
| errorString (s : string)                 (* errors.New(s) *)
| wrapError (format : string) (err : error) (* fmt.Errorf(format, err), one %w *)
| CorruptInputError (offset : Z)           (* encoding/base64 *)
| KeySizeError (k : Z)                     (* crypto/aes *)
| errBlockSize                             (* cipher: NewGCM requires 128-bit block cipher *)
| errOpen                                  (* cipher: message authentication failed *)
| EOF                                      (* io.EOF *)
| ErrUnexpectedEOF                         (* io.ErrUnexpectedEOF *)
| sourceError (s : string).                (* any other error of the random source *)

Definition errors_New (s : string) : error := errorString s.

(** The result of a constructor that returns a value or an error. *)
Inductive result (A : Type) : Type :=
| Ok (a : A)
| Err (err : error).
Arguments Ok {A} a.
Arguments Err {A} err.

(** A call either returns or panics. *)
Inductive outcome (A : Type) : Type :=
| Returns (a : A)
| Panics (msg : string).
Arguments Returns {A} a.
Arguments Panics {A} msg.

(** ** encoding/base64, StdEncoding *)

Module base64.

Definition encodeStd : string :=
  "ABCDEFGHIJKLMNOPQRSTUVWXYZabcdefghijklmnopqrstuvwxyz0123456789+/".

Definition StdPadding : byte := "=".

(** [enc.encode[i]] *)
Definition encode (i : Z) : byte :=
  nth (Z.to_nat i) (list_byte_of_string encodeStd) x00.

Fixpoint index_of (c : byte) (l : bytes) (i : Z) : Z :=
  match l with
  | [] => 255
  | x :: l' => if Byte.eqb x c then i else index_of c l' (i + 1)
  end.

(** [enc.decodeMap[c]]: the position of [c] in the alphabet, 0xff when it
    is not in it. *)
Definition decodeMap (c : byte) : Z :=
  index_of c (list_byte_of_string encodeStd) 0.

(** [Encoding.Encode]: three source bytes give four characters, a last
    group of one or two bytes is padded with ['=']. *)
Fixpoint Encode (src : bytes) : bytes :=
  match src with
  | [] => []
  | b0 :: b1 :: b2 :: rest =>
      let val := Z.lor (Z.lor (Z.shiftl (byte_to_Z b0) 16)
                              (Z.shiftl (byte_to_Z b1) 8)) (byte_to_Z b2) in
      encode (Z.land (Z.shiftr val 18) 63)
        :: encode (Z.land (Z.shiftr val 12) 63)
        :: encode (Z.land (Z.shiftr val 6) 63)
        :: encode (Z.land val 63)
        :: Encode rest
  | [b0; b1] =>
      let val := Z.lor (Z.shiftl (byte_to_Z b0) 16) (Z.shiftl (byte_to_Z b1) 8) in
      [encode (Z.land (Z.shiftr val 18) 63);
       encode (Z.land (Z.shiftr val 12) 63);
       encode (Z.land (Z.shiftr val 6) 63);
       StdPadding]
  | [b0] =>
      let val := Z.shiftl (byte_to_Z b0) 16 in
      [encode (Z.land (Z.shiftr val 18) 63);
       encode (Z.land (Z.shiftr val 12) 63);
       StdPadding; StdPadding]
  end.

Definition EncodeToString (src : bytes) : string :=
  string_of_list_byte (Encode src).

Definition isNewline (c : byte) : bool :=
  Byte.eqb c x0a || Byte.eqb c x0d.

(** The loop [for si < len(src) && (src[si] == '\n' || src[si] == '\r') { si++ }]. *)
Fixpoint skipNewlines (src : bytes) (si : Z) : bytes * Z :=
  match src with
  | c :: rest => if isNewline c then skipNewlines rest (si + 1) else (src, si)
  | [] => ([], si)
  end.

(** The bytes one quantum writes: [dlen - 1] bytes of the 24-bit value
    assembled from up to four 6-bit digits. *)
Definition quantum (dbuf : list Z) (dlen : nat) : bytes :=
  let val := Z.lor (Z.lor (Z.lor (Z.shiftl (nth 0 dbuf 0) 18)
                                 (Z.shiftl (nth 1 dbuf 0) 12))
                          (Z.shiftl (nth 2 dbuf 0) 6)) (nth 3 dbuf 0) in
  firstn (dlen - 1)
    [byte_of_Z (Z.shiftr val 16); byte_of_Z (Z.shiftr val 8); byte_of_Z val].

(** The end of a padded quantum: newlines may follow, anything else is
    trailing garbage; the bytes of the quantum are written in both cases. *)
Definition finish (rest : bytes) (si : Z) (dbuf : list Z) (dlen : nat)
  : bytes * option error :=
  let (rest', si') := skipNewlines rest si in
  (quantum dbuf dlen,
   match rest' with
   | [] => None
   | _ :: _ => Some (CorruptInputError si')
   end).

(** [Encoding.Decode]: [decodeQuantum] run over the whole input.  [n] is
    [len(src)] of the whole input, [si] the index of the head of [src],
    [dbuf] the digits of the current quantum read so far.  (The 8- and
    4-character fast paths of the library give the same result and are
    left out.)  The bytes decoded before an error are returned with it. *)
Fixpoint decode (n : Z) (src : bytes) (si : Z) (dbuf : list Z)
  : bytes * option error :=
  match src with
  | [] =>
      match dbuf with
      | [] => ([], None)
      | _ :: _ => ([], Some (CorruptInputError (si - len dbuf)))
      end
  | c :: rest =>
      let out := decodeMap c in
      if out =? 255 then
        if isNewline c then decode n rest (si + 1) dbuf
        else if negb (Byte.eqb c StdPadding) then ([], Some (CorruptInputError si))
        else
          match dbuf with
          | [] | [_] => ([], Some (CorruptInputError si))
          | [_; _] =>
              let (rest1, si1) := skipNewlines rest (si + 1) in
              match rest1 with
              | [] => ([], Some (CorruptInputError n))
              | c2 :: rest2 =>
                  if negb (Byte.eqb c2 StdPadding)
                  then ([], Some (CorruptInputError (si1 - 1)))
                  else finish rest2 (si1 + 1) dbuf 2
              end
          | _ => finish rest (si + 1) dbuf 3
          end
      else
        match dbuf with
        | [d0; d1; d2] =>
            let (out', err) := decode n rest (si + 1) [] in
            (quantum [d0; d1; d2; out] 4 ++ out', err)
        | _ => decode n rest (si + 1) (dbuf ++ [out])
        end
  end.

Definition DecodeString (s : string) : bytes * option error :=
  let src := list_byte_of_string s in
  decode (len src) src 0 [].

(** The 6-bit digit of [v] at bit [k]; [Encode] takes those at 18, 12, 6
    and 0 from a 24-bit value. *)
Definition digit (v : Z) (k : Z) : Z := Z.land (Z.shiftr v k) 63.

(** A character that is no digit of the alphabet, no padding and no
    newline. *)
Definition foreign (c : byte) : bool :=
  (decodeMap c =? 255) && negb (isNewline c) && negb (Byte.eqb c StdPadding).

(** The characters the decoder does not skip. *)
Definition significant (src : bytes) : bytes :=
  filter (fun c => negb (isNewline c)) src.

Definition isDigit (c : byte) : bool := negb (decodeMap c =? 255).

Definition isPadding (c : byte) : bool := Byte.eqb c StdPadding.

(** The "well-padded standard-alphabet input" of the specification, as
    RFC 4648 writes it: groups of four digits of the alphabet, where the
    last group may end in one or two ['=']. *)
Fixpoint wellPadded (s : bytes) : bool :=
  match s with
  | [] => true
  | [a; b; c; d] =>
      isDigit a && isDigit b
      && ((isDigit c && isDigit d) || (isDigit c && isPadding d)
          || (isPadding c && isPadding d))
  | a :: b :: c :: d :: rest =>
      isDigit a && isDigit b && isDigit c && isDigit d && wellPadded rest
  | _ => false
  end.

End base64.

(** ** Byte strings and big-endian integers *)

(** [subtle.XORBytes]: the xor of two slices over their common length. *)
Fixpoint xorBytes (x y : bytes) : bytes :=
  match x, y with
  | a :: x', b :: y' =>
      byte_of_Z (Z.lxor (byte_to_Z a) (byte_to_Z b)) :: xorBytes x' y'
  | _, _ => []
  end.

(** The big-endian integer held by a byte string. *)
Definition be_Z (bs : bytes) : Z :=
  fold_left (fun acc b => acc * 256 + byte_to_Z b) bs 0.

(** The [n] low bytes of [z], most significant first. *)
Fixpoint be_bytes (n : nat) (z : Z) : bytes :=
  match n with
  | O => []
  | S k => byte_of_Z (Z.shiftr z (8 * Z.of_nat k)) :: be_bytes k z
  end.

(** ** crypto/cipher: the [Block] and [AEAD] interfaces *)

Module cipher.

(** [cipher.Block]: block size in bytes and encryption of one block. *)
Record Block : Type := {
  BlockSize : Z;
  Block_Encrypt : bytes -> bytes
}.

(** [cipher.AEAD], with the arguments in Go's order:
    [Seal dst nonce plaintext additionalData] and
    [Open dst nonce ciphertext additionalData]. *)
Record AEAD : Type := {
  NonceSize : Z;
  Overhead : Z;
  Seal : bytes -> bytes -> bytes -> bytes -> outcome bytes;
  Open : bytes -> bytes -> bytes -> bytes -> outcome (bytes * option error)
}.

(** *** GCM (NIST SP 800-38D) over a 128-bit block cipher *)

Definition gcmBlockSize : Z := 16.
Definition gcmTagSize : Z := 16.
Definition gcmStandardNonceSize : Z := 12.

(** [((1 << 32) - 2) * BlockSize]: the longest plaintext of one GCM call. *)
Definition gcmMaxPlaintext : Z := (2 ^ 32 - 2) * 16.

(** [subtle.ConstantTimeCompare(x, y) == 1]: same length, same contents. *)
Fixpoint ConstantTimeCompare (x y : bytes) : bool :=
  match x, y with
  | [], [] => true
  | a :: x', b :: y' => Byte.eqb a b && ConstantTimeCompare x' y'
  | _, _ => false
  end.

(** The reduction constant [11100001 || 0^120]. *)
Definition gcmR : Z := Z.shiftl 225 120.

(** Multiplication in GF(2^128), blocks as big-endian integers: the
    leftmost bit of a block is bit 127 of the integer. *)
Fixpoint mulLoop (n : nat) (x z v : Z) : Z :=
  match n with
  | O => z
  | S k =>
      let z' := if Z.testbit x (Z.of_nat k) then Z.lxor z v else z in
      let v' := if Z.testbit v 0 then Z.lxor (Z.shiftr v 1) gcmR
                else Z.shiftr v 1 in
      mulLoop k x z' v'
  end.

Definition gcmMul (x y : Z) : Z := mulLoop 128 x 0 y.

(** The 16-byte blocks of a byte string, the last one padded with zeros. *)
Definition blocks (bs : bytes) : list Z :=
  map (fun i => be_Z (firstn 16 (skipn (16 * i) bs ++ repeat x00 16)))
      (seq 0 (Z.to_nat ((len bs + 15) / 16))).

(** [gcmInc32]: the last four bytes of the counter block, plus one,
    modulo [2^32]. *)
Definition gcmInc32 (counter : Z) : Z :=
  Z.lor (Z.shiftl (Z.shiftr counter 32) 32)
        ((Z.land counter (Z.ones 32) + 1) mod 2 ^ 32).

Section GCM.

Variable b : Block.

Definition encryptZ (x : Z) : Z :=
  be_Z (firstn 16 (Block_Encrypt b (be_bytes 16 x))).

(** The hash subkey [H], the encryption of the zero block. *)
Definition hashKey : Z := encryptZ 0.

(** [gcm.update]: [y <- (y xor block) * H] for every block. *)
Definition update (y : Z) (data : bytes) : Z :=
  fold_left (fun y blk => gcmMul (Z.lxor y blk) hashKey) (blocks data) y.

(** [gcm.deriveCounter] for a 12-byte nonce: [nonce || 0^31 || 1]. *)
Definition deriveCounter (nonce : bytes) : Z :=
  be_Z (nonce ++ [x00; x00; x00; x01]).

Fixpoint keystream (nblocks : nat) (counter : Z) : bytes :=
  match nblocks with
  | O => []
  | S k => be_bytes 16 (encryptZ counter) ++ keystream k (gcmInc32 counter)
  end.

(** [gcm.counterCrypt]: xor with the encrypted counter blocks, the counter
    stepped by [gcmInc32] from one block to the next. *)
Definition counterCrypt (input : bytes) (counter : Z) : bytes :=
  xorBytes input (keystream (Z.to_nat ((len input + 15) / 16)) counter).

(** [gcm.auth]: GHASH of the additional data, the ciphertext and their
    bit lengths, masked with the encrypted initial counter block. *)
Definition auth (ciphertext additionalData : bytes) (tagMask : Z) : bytes :=
  let y := update 0 additionalData in
  let y := update y ciphertext in
  let y := Z.lxor y (Z.lor (Z.shiftl ((len additionalData * 8) mod 2 ^ 64) 64)
                           ((len ciphertext * 8) mod 2 ^ 64)) in
  let y := gcmMul y hashKey in
  be_bytes 16 (Z.lxor y tagMask).

Definition gcmSeal (dst nonce plaintext data : bytes) : outcome bytes :=
  if negb (len nonce =? gcmStandardNonceSize) then
    Panics "crypto/cipher: incorrect nonce length given to GCM"
  else if gcmMaxPlaintext <? len plaintext then
    Panics "crypto/cipher: message too large for GCM"
  else
    let counter := deriveCounter nonce in
    let tagMask := encryptZ counter in
    let counter := gcmInc32 counter in
    let out := counterCrypt plaintext counter in
    let tag := auth out data tagMask in
    Returns (dst ++ out ++ tag).

Definition gcmOpen (dst nonce ciphertext data : bytes)
  : outcome (bytes * option error) :=
  if negb (len nonce =? gcmStandardNonceSize) then
    Panics "crypto/cipher: incorrect nonce length given to GCM"
  else if len ciphertext <? gcmTagSize then Returns ([], Some errOpen)
  else if gcmMaxPlaintext + gcmTagSize <? len ciphertext then
    Returns ([], Some errOpen)
  else
    let tag := skipn (length ciphertext - 16) ciphertext in
    let ciphertext := firstn (length ciphertext - 16) ciphertext in
    let counter := deriveCounter nonce in
    let tagMask := encryptZ counter in
    let counter := gcmInc32 counter in
    let expectedTag := auth ciphertext data tagMask in
    if negb (ConstantTimeCompare expectedTag tag) then
      Returns ([], Some errOpen)
    else Returns (dst ++ counterCrypt ciphertext counter, None).

End GCM.

(** [cipher.NewGCM]: the standard 12-byte nonce and 16-byte tag; only
    ciphers with 128-bit blocks are accepted.  (This is the library in
    its default mode; the FIPS 140-only mode of recent Go versions, which
    refuses GCM with nonces chosen by the caller, is not modelled.) *)
Definition NewGCM (b : Block) : result AEAD :=
  if negb (BlockSize b =? gcmBlockSize) then Err errBlockSize
  else
    Ok {| NonceSize := gcmStandardNonceSize;
          Overhead := gcmTagSize;
          Seal := gcmSeal b;
          Open := gcmOpen b |}.

End cipher.

(** ** crypto/aes (FIPS 197) *)

Module aes.

Definition sbox : list Z :=
  [ 99; 124; 119; 123; 242; 107; 111; 197;  48;   1; 103;  43; 254; 215; 171; 118;
   202; 130; 201; 125; 250;  89;  71; 240; 173; 212; 162; 175; 156; 164; 114; 192;
   183; 253; 147;  38;  54;  63; 247; 204;  52; 165; 229; 241; 113; 216;  49;  21;
     4; 199;  35; 195;  24; 150;   5; 154;   7;  18; 128; 226; 235;  39; 178; 117;
     9; 131;  44;  26;  27; 110;  90; 160;  82;  59; 214; 179;  41; 227;  47; 132;
    83; 209;   0; 237;  32; 252; 177;  91; 106; 203; 190;  57;  74;  76;  88; 207;
   208; 239; 170; 251;  67;  77;  51; 133;  69; 249;   2; 127;  80;  60; 159; 168;
    81; 163;  64; 143; 146; 157;  56; 245; 188; 182; 218;  33;  16; 255; 243; 210;
   205;  12;  19; 236;  95; 151;  68;  23; 196; 167; 126;  61; 100;  93;  25; 115;
    96; 129;  79; 220;  34;  42; 144; 136;  70; 238; 184;  20; 222;  94;  11; 219;
   224;  50;  58;  10;  73;   6;  36;  92; 194; 211; 172;  98; 145; 149; 228; 121;
   231; 200;  55; 109; 141; 213;  78; 169; 108;  86; 244; 234; 101; 122; 174;   8;
   186; 120;  37;  46;  28; 166; 180; 198; 232; 221; 116;  31;  75; 189; 139; 138;
   112;  62; 181; 102;  72;   3; 246;  14;  97;  53;  87; 185; 134; 193;  29; 158;
   225; 248; 152;  17; 105; 217; 142; 148; 155;  30; 135; 233; 206;  85;  40; 223;
   140; 161; 137;  13; 191; 230;  66; 104;  65; 153;  45;  15; 176;  84; 187;  22].

Definition BlockSize : Z := 16.

Definition SubByte (b : Z) : Z := nth (Z.to_nat b) sbox 0.

(** Multiplication by [x] in GF(2^8) modulo [x^8 + x^4 + x^3 + x + 1]. *)
Definition xtime (b : Z) : Z :=
  Z.lxor (Z.land (Z.shiftl b 1) 255) (if Z.testbit b 7 then 27 else 0).

Fixpoint xorWords (x y : list Z) : list Z :=
  match x, y with
  | a :: x', b :: y' => Z.lxor a b :: xorWords x' y'
  | _, _ => []
  end.

Definition RotWord (w : list Z) : list Z :=
  match w with
  | a :: w' => w' ++ [a]
  | [] => []
  end.

Definition SubWord (w : list Z) : list Z := map SubByte w.

(** The round constant [x^(j-1)]. *)
Fixpoint Rcon (j : nat) : Z :=
  match j with
  | O => 0
  | S O => 1
  | S k => xtime (Rcon k)
  end.

(** The words of the key, four bytes each. *)
Fixpoint keyWords (key : list Z) : list (list Z) :=
  match key with
  | a :: b :: c :: d :: rest => [a; b; c; d] :: keyWords rest
  | _ => []
  end.

(** Key expansion: [count] further words after the [i] words of [w]. *)
Fixpoint expand (count : nat) (Nk i : nat) (w : list (list Z)) : list (list Z) :=
  match count with
  | O => w
  | S count' =>
      let temp := nth (i - 1) w [] in
      let temp :=
        if (i mod Nk =? 0)%nat
        then xorWords (SubWord (RotWord temp)) [Rcon (i / Nk); 0; 0; 0]
        else if (6 <? Nk)%nat && (i mod Nk =? 4)%nat then SubWord temp
        else temp in
      expand count' Nk (S i) (w ++ [xorWords (nth (i - Nk) w []) temp])
  end.

Definition expandKey (key : bytes) : list (list Z) :=
  let Nk := (length key / 4)%nat in
  expand (4 * (Nk + 6 + 1) - Nk) Nk Nk (keyWords (map byte_to_Z key)).

Definition roundKey (w : list (list Z)) (r : nat) : list Z :=
  concat (firstn 4 (skipn (4 * r) w)).

Definition SubBytes (st : list Z) : list Z := map SubByte st.

(** The state is held column by column: byte [r + 4c] is row [r] of
    column [c]; row [r] moves left by [r] columns. *)
Definition ShiftRows (st : list Z) : list Z :=
  map (fun i => nth i st 0)
      [0; 5; 10; 15; 4; 9; 14; 3; 8; 13; 2; 7; 12; 1; 6; 11]%nat.

Definition mixColumn (a0 a1 a2 a3 : Z) : list Z :=
  let m2 := xtime in
  let m3 := fun a => Z.lxor (xtime a) a in
  [Z.lxor (Z.lxor (m2 a0) (m3 a1)) (Z.lxor a2 a3);
   Z.lxor (Z.lxor a0 (m2 a1)) (Z.lxor (m3 a2) a3);
   Z.lxor (Z.lxor a0 a1) (Z.lxor (m2 a2) (m3 a3));
   Z.lxor (Z.lxor (m3 a0) a1) (Z.lxor a2 (m2 a3))].

Fixpoint MixColumns (st : list Z) : list Z :=
  match st with
  | a0 :: a1 :: a2 :: a3 :: rest => mixColumn a0 a1 a2 a3 ++ MixColumns rest
  | _ => []
  end.

Fixpoint rounds (w : list (list Z)) (count r : nat) (st : list Z) : list Z :=
  match count with
  | O => st
  | S count' =>
      rounds w count' (S r)
        (xorWords (MixColumns (ShiftRows (SubBytes st))) (roundKey w r))
  end.

(** The cipher of FIPS 197 on one 16-byte block, [Nr] rounds.  (GCM, the
    only caller, always passes a full block.) *)
Definition encryptBlock (w : list (list Z)) (Nr : nat) (src : bytes) : bytes :=
  let st := xorWords (map byte_to_Z (firstn 16 (src ++ repeat x00 16)))
                     (roundKey w 0) in
  let st := rounds w (Nr - 1) 1 st in
  let st := xorWords (ShiftRows (SubBytes st)) (roundKey w Nr) in
  map byte_of_Z st.

(** [aes.NewCipher]: keys of 16, 24 or 32 bytes select AES-128, AES-192 or
    AES-256; any other length is a [KeySizeError]. *)
Definition NewCipher (key : bytes) : result cipher.Block :=
  let k := len key in
  if (k =? 16) || (k =? 24) || (k =? 32) then
    Ok {| cipher.BlockSize := BlockSize;
          cipher.Block_Encrypt :=
            encryptBlock (expandKey key) (length key / 4 + 6) |}
  else Err (KeySizeError k).

End aes.

(** ** io.ReadFull over crypto/rand.Reader *)

(** The random source as the package sees it: the bytes it will still
    deliver, and the error it reports once they are used up. *)
Record Reader : Type := {
  pending : bytes;
  failure : error
}.

Definition error_is_EOF (e : error) : bool :=
  match e with
  | EOF => true
  | _ => false
  end.

(** [make([]byte, n)] followed by [io.ReadFull(r, buf)]: the buffer after
    the call, the error, and the source after the call.  A source that
    runs dry after some but not all of the bytes turns [io.EOF] into
    [io.ErrUnexpectedEOF]. *)
Definition io_ReadFull (r : Reader) (n : nat)
  : (bytes * option error) * Reader :=
  if (n <=? length (pending r))%nat then
    ((firstn n (pending r), None),
     {| pending := skipn n (pending r); failure := failure r |})
  else
    ((firstn n (pending r ++ repeat x00 n),
      Some (match pending r with
            | [] => failure r
            | _ :: _ => if error_is_EOF (failure r) then ErrUnexpectedEOF
                        else failure r
            end)),
     {| pending := []; failure := failure r |}).

(** ** The package *)

(** The two constructors the package imports from [crypto/aes] and
    [crypto/cipher].  The package is written over this interface; Go's
    implementation is the instance [go_crypto]. *)
Class Crypto : Type := {
  aes_NewCipher : bytes -> result cipher.Block;
  cipher_NewGCM : cipher.Block -> result cipher.AEAD
}.

#[export] Instance go_crypto : Crypto := {|
  aes_NewCipher := aes.NewCipher;
  cipher_NewGCM := cipher.NewGCM
|}.

Definition fmt_Errorf (format : string) (err : error) : error :=
  wrapError format err.

(** The run-time panics of [make] and of slicing with a negative size;
    they need an [AEAD] with a negative [NonceSize], which Go's GCM is not. *)
Definition makesliceOutOfRange : string :=
  "runtime error: makeslice: len out of range".
Definition sliceOutOfRange : string :=
  "runtime error: slice bounds out of range".

Section Package.

Context {lib : Crypto}.

(** [Encrypt(plaintext, key)], with the state of [rand.Reader] passed in
    and out. *)
Definition Encrypt (plaintext key : bytes) (rand_Reader : Reader)
  : outcome (string * option error) * Reader :=
  if negb (len key =? 32) then
    (Returns (EmptyString,
              Some (errors_New "key must be 32 bytes for AES-256")),
     rand_Reader)
  else
    match aes_NewCipher key with
    | Err err =>
        (Returns (EmptyString,
                  Some (fmt_Errorf "AES cipher creation failed: %w" err)),
         rand_Reader)
    | Ok block =>
        match cipher_NewGCM block with
        | Err err =>
            (Returns (EmptyString,
                      Some (fmt_Errorf "GCM mode creation failed: %w" err)),
             rand_Reader)
        | Ok gcm =>
            if cipher.NonceSize gcm <? 0 then
              (Panics makesliceOutOfRange, rand_Reader)
            else
              let '((nonce, err), rand_Reader) :=
                io_ReadFull rand_Reader (Z.to_nat (cipher.NonceSize gcm)) in
              match err with
              | Some err =>
                  (Returns (EmptyString,
                            Some (fmt_Errorf "nonce generation failed: %w" err)),
                   rand_Reader)
              | None =>
                  match cipher.Seal gcm [] nonce plaintext [] with
                  | Panics msg => (Panics msg, rand_Reader)
                  | Returns ciphertext =>
                      let result := nonce ++ ciphertext in
                      (Returns (base64.EncodeToString result, None),
                       rand_Reader)
                  end
              end
        end
    end.

(** [Decrypt(ciphertextB64, key)]. *)
Definition Decrypt (ciphertextB64 : string) (key : bytes)
  : outcome (bytes * option error) :=
  if negb (len key =? 32) then
    Returns ([], Some (errors_New "key must be 32 bytes for AES-256"))
  else
    let (data, err) := base64.DecodeString ciphertextB64 in
    match err with
    | Some err => Returns ([], Some (fmt_Errorf "base64 decode failed: %w" err))
    | None =>
        match aes_NewCipher key with
        | Err err =>
            Returns ([], Some (fmt_Errorf "AES cipher creation failed: %w" err))
        | Ok block =>
            match cipher_NewGCM block with
            | Err err =>
                Returns ([], Some (fmt_Errorf "GCM mode creation failed: %w" err))
            | Ok gcm =>
                let nonceSize := cipher.NonceSize gcm in
                if len data <? nonceSize then
                  Returns ([], Some (errors_New "ciphertext too short"))
                else if nonceSize <? 0 then
                  Panics sliceOutOfRange
                else
                  let nonce := firstn (Z.to_nat nonceSize) data in
                  let ciphertext := skipn (Z.to_nat nonceSize) data in
                  match cipher.Open gcm [] nonce ciphertext [] with
                  | Panics msg => Panics msg
                  | Returns (plaintext, Some err) =>
                      Returns ([], Some (fmt_Errorf "decryption failed: %w" err))
                  | Returns (plaintext, None) => Returns (plaintext, None)
                  end
            end
        end
    end.

End Package.

(** [GenerateKey()], with the state of [rand.Reader] passed in and out. *)
Definition GenerateKey (rand_Reader : Reader)
  : (bytes * option error) * Reader :=
  let '((key, err), rand_Reader) := io_ReadFull rand_Reader 32 in
  match err with
  | Some err => (([], Some (fmt_Errorf "key generation failed: %w" err)),
                 rand_Reader)
  | None => ((key, None), rand_Reader)
  end.

(** ** The error taxonomy of the specification *)

(** The four kinds of errors the specification names. *)

Inductive ErrorKind : Type :=
| InvalidKeyLength
| RandomnessUnavailable
| MalformedEnvelope
| AuthenticationFailed.

(** The kind of an error value of the package, read off the message the
    source gives it. *)
Definition kind (e : error) : option ErrorKind :=
  match e with
  | errorString s =>
      if String.eqb s "key must be 32 bytes for AES-256" then Some InvalidKeyLength
      else if String.eqb s "ciphertext too short" then Some MalformedEnvelope
      else None
  | wrapError format _ =>
      if String.eqb format "base64 decode failed: %w" then Some MalformedEnvelope
      else if String.eqb format "decryption failed: %w" then Some AuthenticationFailed
      else if String.eqb format "nonce generation failed: %w"
              || String.eqb format "key generation failed: %w"
      then Some RandomnessUnavailable
      else None
  | _ => None
  end.

(** ** Auxiliary notions of the statements *)

(** The block [aes.NewCipher] builds for a key. *)
Definition aesBlock (key : bytes) : cipher.Block :=
  {| cipher.BlockSize := aes.BlockSize;
     cipher.Block_Encrypt :=
       aes.encryptBlock (aes.expandKey key) (length key / 4 + 6) |}.

(** [ceil(a / b)] for positive [b]. *)
Definition ceilDiv (a b : Z) : Z := (a + b - 1) / b.

(** The twelve bytes a call of [Encrypt] takes from the source. *)
Definition nonceDrawn (rd : Reader) : bytes := fst (fst (io_ReadFull rd 12)).

(** [data] with bit [i mod 8] of byte [i / 8] flipped. *)
Definition flipBit (data : bytes) (i : nat) : bytes :=
  firstn (i / 8) data ++
  match skipn (i / 8) data with
  | [] => []
  | b :: rest =>
      byte_of_Z (Z.lxor (byte_to_Z b) (Z.shiftl 1 (Z.of_nat (i mod 8)))) :: rest
  end.

(** Hexadecimal notation for the test vectors. *)
Definition hexDigit (c : byte) : Z :=
  let n := byte_to_Z c in if n <? 58 then n - 48 else n - 87.

Fixpoint hexBytes (l : bytes) : bytes :=
  match l with
  | a :: b :: rest => byte_of_Z (hexDigit a * 16 + hexDigit b) :: hexBytes rest
  | _ => []
  end.

Definition hex (s : string) : bytes := hexBytes (list_byte_of_string s).

(** One-shot use of the model on a test vector. *)
Definition aesEncrypt (key src : bytes) : option bytes :=
  match aes.NewCipher key with
  | Ok b => Some (cipher.Block_Encrypt b src)
  | Err _ => None
  end.

Definition gcmSealWith (key nonce plaintext data : bytes) : option (outcome bytes) :=
  match aes.NewCipher key with
  | Ok b =>
      match cipher.NewGCM b with
      | Ok g => Some (cipher.Seal g [] nonce plaintext data)
      | Err _ => None
      end
  | Err _ => None
  end.

(** A block cipher that is no cipher: every block is its own encryption,
    so the hash key of GCM over it is zero. *)
Definition identityBlock : cipher.Block :=
  {| cipher.BlockSize := 16; cipher.Block_Encrypt := fun src => src |}.

(** Sample inputs. *)
Definition zeroKey : bytes := repeat x00 32.
Definition zeroSource : Reader := {| pending := repeat x00 64; failure := EOF |}.
Definition hello : bytes := list_byte_of_string "hello".

Definition twoNonceSource : Reader :=
  {| pending := repeat x00 12 ++ repeat x01 12; failure := EOF |}.


(** The three parts of a decoded envelope of at least 28 bytes. *)
Definition envelopeNonce (data : bytes) : bytes := firstn 12 data.

Definition envelopeBody (data : bytes) : bytes :=
  firstn (length data - 28) (skipn 12 data).

Definition envelopeTag (data : bytes) : bytes := skipn (length data - 16) data.

(** The tag GCM computes under [key] for the nonce and the body of a
    decoded envelope. *)
Definition expectedTag (key data : bytes) : bytes :=
  cipher.auth (aesBlock key) (envelopeBody data) []
    (cipher.encryptZ (aesBlock key) (cipher.deriveCounter (envelopeNonce data))).


(** ** The other packages of the repository *)

(** A Go [interface{}] value, with the dynamic types its users here can
    tell apart: [nil], a string, and values of other types. *)
Inductive any : Type :=
| anyNil
| anyString (s : string)
| anyInt (n : Z)
| anyBool (b : bool)
| anyError (e : error).

(** A Go [map[string]V]: what is stored under each key. *)
Definition Map (V : Type) : Type := string -> option V.

(** [make(map[string]V)] *)
Definition Map_empty {V : Type} : Map V := fun _ => None.

(** [m[key] = value] *)
Definition Map_insert {V : Type} (key : string) (value : V) (m : Map V) : Map V :=
  fun k => if String.eqb k key then Some value else m k.

(** [val, ok := m[key]]: the zero value of [V] and [false] when nothing is
    stored under [key]. *)
Definition Map_lookup {V : Type} (zero : V) (m : Map V) (key : string)
  : V * bool :=
  match m key with
  | Some v => (v, true)
  | None => (zero, false)
  end.

(** *** Package [errors]: wrapping and root causes *)

Module errors.

(** The standard library's [errors.Unwrap]: only the errors built by
    [fmt.Errorf] with [%w] have something inside; [nil] has nothing. *)
Definition Unwrap (err : option error) : option error :=
  match err with
  | Some (wrapError _ inner) => Some inner
  | _ => None
  end.

(** [Wrap(err, msg)]: [fmt.Errorf("%s: %w", msg, err)], the [%s] filled
    with [msg]; [nil] stays [nil]. *)
Definition Wrap (err : option error) (msg : string) : option error :=
  match err with
  | None => None
  | Some e => Some (fmt_Errorf (msg ++ ": %w") e)
  end.

(** The loop of [Cause] on an error that is not [nil]: unwrap until
    nothing is inside. *)
Fixpoint root (e : error) : error :=
  match e with
  | wrapError _ inner => root inner
  | _ => e
  end.

(** [Cause(err)] *)
Definition Cause (err : option error) : option error :=
  match err with
  | None => None
  | Some e => Some (root e)
  end.

End errors.

(** *** Package [config] *)

Module config.

(** [os.Getenv] on an environment: the value of the variable, the empty
    string when it is not set. *)
Definition os_Getenv (env : Map string) (key : string) : string :=
  match env key with
  | Some v => v
  | None => EmptyString
  end.

(** [GetEnv(key, def)], the environment of the process passed in. *)
Definition GetEnv (env : Map string) (key def : string) : string :=
  let v := os_Getenv env key in
  if negb (String.eqb v EmptyString) then v else def.

End config.

(** *** Package [cache] *)

Module cache.

(** [rwmutexMaxReaders = 1 << 30] *)
Definition rwmutexMaxReaders : Z := 2 ^ 30.

(** The value an [atomic.Int32] holds after an [Add]. *)
Definition int32 (z : Z) : Z := (z + 2 ^ 31) mod 2 ^ 32 - 2 ^ 31.

(** A [sync.RWMutex], field by field: [w] is the mutex the writers
    take first (locked or not), [readerCount] the number of readers that
    hold the lock or sleep in [RLock], less [rwmutexMaxReaders] while a
    writer has announced itself, [readerWait] the number of readers a
    sleeping writer still waits for.  The two semaphores, on which callers
    sleep and are woken, belong to the scheduler: each function below
    gives the mutex after the caller's own steps and says whether the
    caller goes on or sleeps. *)
Record RWMutex : Type := {
  w : bool;
  readerCount : Z;
  readerWait : Z
}.

(** The zero value: an unlocked mutex. *)
Definition unlocked : RWMutex :=
  {| w := false; readerCount := 0; readerWait := 0 |}.

(** [rw.RLock()]: the caller counts itself in; it goes on ([true]) unless
    a writer has announced itself, and then sleeps until that writer's
    [Unlock]. *)
Definition RLock (rw : RWMutex) : RWMutex * bool :=
  let r := int32 (readerCount rw + 1) in
  ({| w := w rw; readerCount := r; readerWait := readerWait rw |},
   negb (r <? 0)).

(** [rw.Lock()]: the caller sleeps on [w] while another writer has it;
    else it takes [w], announces itself to the readers, and sleeps while
    readers hold the lock. *)
Definition Lock (rw : RWMutex) : RWMutex * bool :=
  if w rw then (rw, false)
  else
    let count := int32 (readerCount rw - rwmutexMaxReaders) in
    let r := int32 (count + rwmutexMaxReaders) in
    let (wait, sleeps) :=
      if negb (r =? 0) then
        let wait := int32 (readerWait rw + r) in (wait, negb (wait =? 0))
      else (readerWait rw, false) in
    ({| w := true; readerCount := count; readerWait := wait |}, negb sleeps).

(** [rw.RUnlock()], with [rUnlockSlow]; releasing a lock that is not held
    is a fatal error of the run time.  The reader that brings
    [readerWait] to 0 wakes the sleeping writer. *)
Definition RUnlock (rw : RWMutex) : outcome RWMutex :=
  let r := int32 (readerCount rw - 1) in
  if r <? 0 then
    if (int32 (r + 1) =? 0) || (int32 (r + 1) =? - rwmutexMaxReaders) then
      Panics "fatal error: sync: RUnlock of unlocked RWMutex"
    else
      Returns {| w := w rw; readerCount := r;
                 readerWait := int32 (readerWait rw - 1) |}
  else Returns {| w := w rw; readerCount := r; readerWait := readerWait rw |}.

(** [rw.Unlock()]: takes the announcement back, wakes the readers that
    sleep in [RLock] (they are counted in [readerCount] already), and
    releases [w]. *)
Definition Unlock (rw : RWMutex) : outcome RWMutex :=
  let r := int32 (readerCount rw + rwmutexMaxReaders) in
  if rwmutexMaxReaders <=? r then
    Panics "fatal error: sync: Unlock of unlocked RWMutex"
  else if w rw then
    Returns {| w := false; readerCount := r; readerWait := readerWait rw |}
  else Panics "fatal error: sync: unlock of unlocked mutex".

(** The states a mutex is in when it is used as documented: without a
    writer, some readers hold it; with one, the writer holds it or waits
    for [readerWait] readers, and other readers may sleep in [RLock]. *)
Definition wellFormed (rw : RWMutex) : bool :=
  if w rw then
    (- rwmutexMaxReaders <=? readerCount rw) && (readerCount rw <? -1)
    && (0 <=? readerWait rw)
    && (readerWait rw <=? readerCount rw + rwmutexMaxReaders)
  else
    (0 <=? readerCount rw) && (readerCount rw <? rwmutexMaxReaders - 1)
    && (readerWait rw =? 0).

(** The [data] field is a Go map: [None] is the [nil] map of a
    [MemoryCache] that [New] did not build (the zero value
    [MemoryCache{}], which the exported type allows). *)
Record MemoryCache : Type := {
  mu : RWMutex;
  data : option (Map any)
}.

(** [New()] *)
Definition New : MemoryCache := {| mu := unlocked; data := Some Map_empty |}.

(** Reading a [nil] map finds nothing. *)
Definition contents (c : MemoryCache) : Map any :=
  match data c with
  | Some m => m
  | None => Map_empty
  end.

(** [c.Get(key)]: what the call returns and the cache after it; nothing
    when the caller sleeps in [RLock] (the mutex is then the one [RLock]
    gives).  The deferred [RUnlock] runs once the results are set. *)
Definition Get (c : MemoryCache) (key : string)
  : option (outcome (any * bool) * MemoryCache) :=
  let (held, goes) := RLock (mu c) in
  if goes then
    let (val, ok) := Map_lookup anyNil (contents c) key in
    Some match RUnlock held with
         | Panics msg => (Panics msg, {| mu := held; data := data c |})
         | Returns released =>
             (Returns (val, ok), {| mu := released; data := data c |})
         end
  else None.

(** [c.Set(key, value)]: how the call ends and the cache after it;
    nothing when the caller sleeps in [Lock] (the mutex is then the one
    [Lock] gives).  An assignment to an entry of a [nil] map panics; the
    deferred [Unlock] runs all the same. *)
Definition Set_ (c : MemoryCache) (key : string) (value : any)
  : option (outcome unit * MemoryCache) :=
  let (held, goes) := Lock (mu c) in
  if goes then
    let (assigned, data') :=
      match data c with
      | Some m => (Returns tt, Some (Map_insert key value m))
      | None => (Panics "assignment to entry in nil map", None)
      end in
    Some match Unlock held with
         | Panics msg => (Panics msg, {| mu := held; data := data' |})
         | Returns released => (assigned, {| mu := released; data := data' |})
         end
  else None.

(** The cache as the other callers find it while a caller sleeps in
    [Set]. *)
Definition whileSetSleeps (c : MemoryCache) : MemoryCache :=
  {| mu := fst (Lock (mu c)); data := data c |}.

(** A caller that makes the [Set] calls of a list one after the other,
    and stops at the first that does not return. *)
Fixpoint SetAll (c : MemoryCache) (writes : list (string * any))
  : option (outcome unit * MemoryCache) :=
  match writes with
  | [] => Some (Returns tt, c)
  | (key, value) :: rest =>
      match Set_ c key value with
      | Some (Returns _, c') => SetAll c' rest
      | other => other
      end
  end.

(** The value of the last write to [key] in a list of writes. *)
Fixpoint lastWrite (key : string) (writes : list (string * any)) : option any :=
  match writes with
  | [] => None
  | (k, v) :: rest =>
      match lastWrite key rest with
      | Some v' => Some v'
      | None => if String.eqb key k then Some v else None
      end
  end.

End cache.

(** *** [net/http]: the writer under gin's *)

Module net_http.

Definition StatusOK : Z := 200.
Definition StatusNoContent : Z := 204.
Definition StatusNotModified : Z := 304.
Definition StatusInternalServerError : Z := 500.

(** An [http.ResponseWriter] of the standard library, as the calls that
    reached it left it: the [Content-Type] entry of its header map, the
    status and [Content-Type] of the header written (if one was), the
    chunks of body written, and the error its [Write] returns (none while
    the connection is sound). *)
Record ResponseWriter : Type := {
  ContentType : list string;
  wroteHeader : option (Z * list string);
  body : list bytes;
  writeError : option error
}.

(** [checkWriteHeaderCode(code)]: the panic message, if it panics. *)
Definition checkWriteHeaderCode (code : Z) : option string :=
  if (code <? 100) || (999 <? code) then
    Some ("invalid WriteHeader code "
          ++ NilZero.string_of_int (Z.to_int code))%string
  else None.

(** [w.WriteHeader(code)]: a second call changes nothing. *)
Definition WriteHeader (w : ResponseWriter) (code : Z) : outcome ResponseWriter :=
  match wroteHeader w with
  | Some _ => Returns w
  | None =>
      match checkWriteHeaderCode code with
      | Some msg => Panics msg
      | None =>
          Returns {| ContentType := ContentType w;
                     wroteHeader := Some (code, ContentType w);
                     body := body w;
                     writeError := writeError w |}
      end
  end.

(** [w.Write(data)]: writes the header with status 200 first if none was
    written; the number of bytes written and the error. *)
Definition Write (w : ResponseWriter) (data : bytes)
  : ResponseWriter * (Z * option error) :=
  let sent := match wroteHeader w with
              | Some header => header
              | None => (StatusOK, ContentType w)
              end in
  match writeError w with
  | Some err =>
      ({| ContentType := ContentType w; wroteHeader := Some sent;
          body := body w; writeError := writeError w |},
       (0, Some err))
  | None =>
      ({| ContentType := ContentType w; wroteHeader := Some sent;
          body := body w ++ [data]; writeError := writeError w |},
       (len data, None))
  end.

End net_http.

(** *** [gin]: the response writer and the part of [Context] the package
    touches *)

Module gin.

Definition noWritten : Z := -1.
Definition defaultStatus : Z := net_http.StatusOK.

(** [responseWriter] *)
Record responseWriter : Type := {
  ResponseWriter : net_http.ResponseWriter;
  size : Z;
  status : Z
}.

(** [w.reset(writer)] *)
Definition reset (writer : net_http.ResponseWriter) : responseWriter :=
  {| ResponseWriter := writer; size := noWritten; status := defaultStatus |}.

(** [w.Written()] *)
Definition Written (w : responseWriter) : bool := negb (size w =? noWritten).

(** [w.WriteHeader(code)]: only notes the status, and only a positive one;
    once the header is out the status stays (gin prints a warning). *)
Definition WriteHeader (w : responseWriter) (code : Z) : responseWriter :=
  if (0 <? code) && negb (status w =? code) then
    if Written w then w
    else {| ResponseWriter := ResponseWriter w; size := size w; status := code |}
  else w.

(** [w.WriteHeaderNow()] *)
Definition WriteHeaderNow (w : responseWriter) : outcome responseWriter :=
  if negb (Written w) then
    match net_http.WriteHeader (ResponseWriter w) (status w) with
    | Panics msg => Panics msg
    | Returns writer =>
        Returns {| ResponseWriter := writer; size := 0; status := status w |}
    end
  else Returns w.

(** [w.Write(data)] *)
Definition Write (w : responseWriter) (data : bytes)
  : outcome (responseWriter * (Z * option error)) :=
  match WriteHeaderNow w with
  | Panics msg => Panics msg
  | Returns w =>
      let '(writer, (n, err)) := net_http.Write (ResponseWriter w) data in
      Returns ({| ResponseWriter := writer; size := size w + n;
                  status := status w |},
               (n, err))
  end.

(** [Context]: the keys set on the request, the writer, the errors
    pushed, and whether the chain of handlers was aborted. *)
Record Context : Type := {
  Keys : Map any;
  Writer : responseWriter;
  Errors : list error;
  aborted : bool
}.

(** [c.Get(key)] *)
Definition Get (c : Context) (key : string) : any * bool :=
  Map_lookup anyNil (Keys c) key.

(** [bodyAllowedForStatus(status)] *)
Definition bodyAllowedForStatus (status : Z) : bool :=
  if (100 <=? status) && (status <=? 199) then false
  else if status =? net_http.StatusNoContent then false
  else if status =? net_http.StatusNotModified then false
  else true.

Definition jsonContentType : list string := ["application/json; charset=utf-8"%string].

(** [writeContentType(w, value)]: sets the entry of the header map if it
    is empty. *)
Definition writeContentType (w : responseWriter) (value : list string)
  : responseWriter :=
  match net_http.ContentType (ResponseWriter w) with
  | [] =>
      {| ResponseWriter :=
           {| net_http.ContentType := value;
              net_http.wroteHeader := net_http.wroteHeader (ResponseWriter w);
              net_http.body := net_http.body (ResponseWriter w);
              net_http.writeError := net_http.writeError (ResponseWriter w) |};
         size := size w; status := status w |}
  | _ :: _ => w
  end.

(** [c.Error(err)] followed by [c.Abort()], what [Render] does with an
    error of the renderer: the error is pushed on the context and the
    chain of handlers aborted. *)
Definition fail (c : Context) (w : responseWriter) (err : error) : Context :=
  {| Keys := Keys c; Writer := w; Errors := Errors c ++ [err];
     aborted := true |}.

(** A context on which nothing has been written yet: the status noted
    so far ([defaultStatus] unless a handler has set one), the
    [Content-Type] set so far, and the error the connection will report. *)
Definition unsent (keys : Map any) (st : Z) (ct : list string)
  (werr : option error) : Context :=
  {| Keys := keys;
     Writer := {| ResponseWriter :=
                    {| net_http.ContentType := ct;
                       net_http.wroteHeader := None;
                       net_http.body := [];
                       net_http.writeError := werr |};
                  size := noWritten;
                  status := st |};
     Errors := [];
     aborted := false |}.

(** A context whose header is out, with [n] bytes of body in [chunks]
    written after it. *)
Definition sent (keys : Map any) (st : Z) (header : Z * list string)
  (ct : list string) (n : nat) (chunks : list bytes) (werr : option error)
  (errs : list error) (ab : bool) : Context :=
  {| Keys := keys;
     Writer := {| ResponseWriter :=
                    {| net_http.ContentType := ct;
                       net_http.wroteHeader := Some header;
                       net_http.body := chunks;
                       net_http.writeError := werr |};
                  size := Z.of_nat n;
                  status := st |};
     Errors := errs;
     aborted := ab |}.

Section Render.

(** [encoding/json.Marshal] on the values rendered. *)
Variable T : Type.
Variable json_Marshal : T -> result bytes.

(** [c.JSON(code, obj)], that is [c.Render(code, render.JSON{Data: obj})]:
    note the status; for a status that allows no body write the header
    alone; else encode [obj] and write it, which writes the header first. *)
Definition JSON (c : Context) (code : Z) (obj : T) : outcome Context :=
  let w := WriteHeader (Writer c) code in
  if negb (bodyAllowedForStatus code) then
    let w := writeContentType w jsonContentType in
    match WriteHeaderNow w with
    | Panics msg => Panics msg
    | Returns w =>
        Returns {| Keys := Keys c; Writer := w; Errors := Errors c;
                   aborted := aborted c |}
    end
  else
    let w := writeContentType w jsonContentType in
    match json_Marshal obj with
    | Err err => Returns (fail c w err)
    | Ok jsonBytes =>
        match Write w jsonBytes with
        | Panics msg => Panics msg
        | Returns (w, (_, Some err)) => Returns (fail c w err)
        | Returns (w, (_, None)) =>
            Returns {| Keys := Keys c; Writer := w; Errors := Errors c;
                       aborted := aborted c |}
        end
    end.

End Render.

End gin.

(** *** Package [response] *)

Module response.

(** [Response], the body of every reply. *)
Module Response.
Record t : Type := {
  Code : Z;
  Message : string;
  RequestID : string;
  Data : any
}.
End Response.

Definition SuccessCode : Z := 0.
Definition ErrorCode : Z := 1.
Definition WarnCode : Z := 2.

(** [Option], what a caller of [JSON] may choose. *)
Module Option.
Record t : Type := {
  HTTPStatus : Z;
  Code : Z;
  Message : string;
  Data : any
}.
End Option.

(** [encoding/json.Marshal] on a [Response]: the document, or the error
    for data it cannot encode. *)
Class Encoder : Type := {
  json_Marshal : Response.t -> result bytes
}.

(** [getRequestID(c)]: the string under ["request_id"], the empty string
    when there is none or it is no string. *)
Definition getRequestID (c : gin.Context) : string :=
  let (id, ok) := gin.Get c "request_id" in
  if ok then
    match id with
    | anyString str => str
    | _ => EmptyString
    end
  else EmptyString.

Section Package.

Context {enc : Encoder}.

(** [JSON(c, opts)] *)
Definition JSON (c : gin.Context) (opts : Option.t) : outcome gin.Context :=
  let message :=
    if String.eqb (Option.Message opts) EmptyString then
      if Option.Code opts =? SuccessCode then "success"%string
      else if Option.Code opts =? WarnCode then "warning"%string
      else if Option.Code opts =? ErrorCode then "error"%string
      else "info"%string
    else Option.Message opts in
  let status :=
    if Option.HTTPStatus opts =? 0 then net_http.StatusOK
    else Option.HTTPStatus opts in
  gin.JSON Response.t json_Marshal c status
    {| Response.Code := Option.Code opts;
       Response.Message := message;
       Response.RequestID := getRequestID c;
       Response.Data := Option.Data opts |}.

(** [Success(c, msg, data)] *)
Definition Success (c : gin.Context) (msg : string) (data : any)
  : outcome gin.Context :=
  JSON c {| Option.Code := SuccessCode;
            Option.Message := msg;
            Option.Data := data;
            Option.HTTPStatus := net_http.StatusOK |}.

(** [Warn(c, msg, data)] *)
Definition Warn (c : gin.Context) (msg : string) (data : any)
  : outcome gin.Context :=
  JSON c {| Option.Code := WarnCode;
            Option.Message := msg;
            Option.Data := data;
            Option.HTTPStatus := net_http.StatusOK |}.

(** [Error(c, msg, data, httpStatus...)] *)
Definition Error (c : gin.Context) (msg : string) (data : any)
  (httpStatus : list Z) : outcome gin.Context :=
  let status :=
    match httpStatus with
    | first :: _ =>
        if 0 <? first then first else net_http.StatusInternalServerError
    | [] => net_http.StatusInternalServerError
    end in
  JSON c {| Option.Code := ErrorCode;
            Option.Message := msg;
            Option.Data := data;
            Option.HTTPStatus := status |}.

(** The calls of the package a handler can make on its context. *)
Inductive Call : Type :=
| CallJSON (opts : Option.t)
| CallSuccess (msg : string) (data : any)
| CallWarn (msg : string) (data : any)
| CallError (msg : string) (data : any) (httpStatus : list Z).

Definition call (c : gin.Context) (f : Call) : outcome gin.Context :=
  match f with
  | CallJSON opts => JSON c opts
  | CallSuccess msg data => Success c msg data
  | CallWarn msg data => Warn c msg data
  | CallError msg data httpStatus => Error c msg data httpStatus
  end.

(** A handler that makes the calls of a list one after the other; a
    panic ends it. *)
Fixpoint calls (c : gin.Context) (fs : list Call) : outcome gin.Context :=
  match fs with
  | [] => Returns c
  | f :: rest =>
      match call c f with
      | Panics msg => Panics msg
      | Returns c' => calls c' rest
      end
  end.

End Package.

End response.


(** * The library model on published test vectors *)

(** FIPS 197, appendix C. *)
Example aes128_vector :
  aesEncrypt (hex "000102030405060708090a0b0c0d0e0f")
             (hex "00112233445566778899aabbccddeeff")
  = Some (hex "69c4e0d86a7b0430d8cdb78070b4c55a").
Proof. vm_compute. reflexivity. Qed.

Example aes192_vector :
  aesEncrypt (hex "000102030405060708090a0b0c0d0e0f1011121314151617")
             (hex "00112233445566778899aabbccddeeff")
  = Some (hex "dda97ca4864cdfe06eaf70a0ec0d7191").
Proof. vm_compute. reflexivity. Qed.

Example aes256_vector :
  aesEncrypt (hex "000102030405060708090a0b0c0d0e0f101112131415161718191a1b1c1d1e1f")
             (hex "00112233445566778899aabbccddeeff")
  = Some (hex "8ea2b7ca516745bfeafc49904b496089").
Proof. vm_compute. reflexivity. Qed.

(** The GCM specification, test cases 13, 14 and 16 (AES-256). *)
Example gcm_vector_13 :
  gcmSealWith (repeat x00 32) (repeat x00 12) [] []
  = Some (Returns (hex "530f8afbc74536b9a963b4f1c4cb738b")).
Proof. vm_compute. reflexivity. Qed.

Example gcm_vector_14 :
  gcmSealWith (repeat x00 32) (repeat x00 12) (repeat x00 16) []
  = Some (Returns (hex "cea7403d4d606b6e074ec5d3baf39d18d0d1c8a799996bf0265b98b5d48ab919")).
Proof. vm_compute. reflexivity. Qed.

Example gcm_vector_16 :
  gcmSealWith
    (hex "feffe9928665731c6d6a8f9467308308feffe9928665731c6d6a8f9467308308")
    (hex "cafebabefacedbaddecaf888")
    (hex "d9313225f88406e5a55909c5aff5269a86a7a9531534f7da2e4c303d8a318a721c3c0c95956809532fcf0e2449a6b525b16aedf5aa0de657ba637b39")
    (hex "feedfacedeadbeeffeedfacedeadbeefabaddad2")
  = Some (Returns (hex "522dc1f099567d07f47f37a32a84427d643a8cdcbfe5c0c97598a2bd2555d1aa8cb08e48590dbb3da7b08b1056828838c5f61e6393ba7a0abcc9f66276fc6ece0f4e1768cddf8853bb2d551b")).
Proof. vm_compute. reflexivity. Qed.

(** RFC 4648, section 10, and the decoder on inputs that are not the
    output of the encoder. *)
Example base64_rfc4648 :
  map base64.EncodeToString
      (map list_byte_of_string ["f"; "fo"; "foo"; "foob"; "fooba"; "foobar"]%string)
  = ["Zg=="; "Zm8="; "Zm9v"; "Zm9vYg=="; "Zm9vYmE="; "Zm9vYmFy"]%string.
Proof. vm_compute. reflexivity. Qed.

Example base64_decode_newlines :
  base64.decode 9 (list_byte_of_string "aGVs" ++ [x0a] ++ list_byte_of_string "bG8=") 0 []
  = (list_byte_of_string "hello", None).
Proof. vm_compute. reflexivity. Qed.

Example base64_decode_unpadded :
  base64.DecodeString "aGVsbG8" 
  = (list_byte_of_string "hel", Some (CorruptInputError 4)).
Proof. vm_compute. reflexivity. Qed.

Example base64_decode_trailing :
  base64.DecodeString "QQ==QQ==" = (list_byte_of_string "A", Some (CorruptInputError 4)).
Proof. vm_compute. reflexivity. Qed.

Example base64_decode_loose_bits :
  base64.DecodeString "QR==" = (list_byte_of_string "A", None).
Proof. vm_compute. reflexivity. Qed.

(** * Properties *)

(** ** Bytes *)

Lemma byte_to_Z_range (b : byte) : 0 <= byte_to_Z b < 256.
Proof.
  unfold byte_to_Z. pose proof (Byte.to_N_bounded b). lia.
Qed.

Lemma byte_of_to_Z (b : byte) : byte_of_Z (byte_to_Z b) = b.
Proof.
  unfold byte_of_Z. rewrite Z.mod_small by apply byte_to_Z_range.
  unfold byte_to_Z. rewrite N2Z.id, Byte.of_to_N. reflexivity.
Qed.

Lemma byte_to_of_Z (z : Z) : 0 <= z < 256 -> byte_to_Z (byte_of_Z z) = z.
Proof.
  intros Hz. unfold byte_of_Z. rewrite Z.mod_small by assumption.
  destruct (Byte.of_N (Z.to_N z)) as [b|] eqn:E.
  - apply Byte.to_of_N in E. unfold byte_to_Z. rewrite E. lia.
  - apply Byte.of_N_None_iff in E. lia.
Qed.

Lemma byte_eqb_eq (a b : byte) : Byte.eqb a b = true <-> a = b.
Proof.
  split; [apply Byte.byte_dec_bl | apply Byte.byte_dec_lb].
Qed.

Lemma byte_eqb_neq (a b : byte) : Byte.eqb a b = false <-> a <> b.
Proof.
  split.
  - apply Byte.eqb_false.
  - intros H. destruct (Byte.eqb a b) eqn:E; [|reflexivity].
    apply byte_eqb_eq in E. contradiction.
Qed.

Lemma len_nonneg {A : Type} (l : list A) : 0 <= len l.
Proof. unfold len. lia. Qed.

Lemma len_app {A : Type} (l1 l2 : list A) : len (l1 ++ l2) = len l1 + len l2.
Proof. unfold len. rewrite length_app. lia. Qed.

(** ** base64 *)

Module base64_facts.
Import base64.

Lemma sextet_range (v : Z) : 0 <= Z.land v 63 < 64.
Proof.
  change 63 with (Z.ones 6). rewrite Z.land_ones by lia.
  apply Z.mod_pos_bound. lia.
Qed.

(** Every digit below 64 is mapped back by [decodeMap]. *)
Lemma decodeMap_encode (i : Z) : 0 <= i < 64 -> decodeMap (encode i) = i.
Proof.
  intros Hi.
  assert (H : forallb (fun n => decodeMap (encode (Z.of_nat n)) =? Z.of_nat n)
                      (seq 0 64) = true) by (vm_compute; reflexivity).
  rewrite forallb_forall in H.
  specialize (H (Z.to_nat i)).
  rewrite Z2Nat.id in H by lia.
  apply Z.eqb_eq, H, in_seq. lia.
Qed.

Lemma encode_is_digit (i : Z) : 0 <= i < 64 -> decodeMap (encode i) <> 255.
Proof. intros Hi. rewrite decodeMap_encode by assumption. lia. Qed.

(** An [or] of two bit-disjoint numbers is their sum. *)
Lemma land_disjoint (x lo n : Z) :
  0 <= n -> x mod 2 ^ n = 0 -> 0 <= lo < 2 ^ n -> Z.land x lo = 0.
Proof.
  intros Hn Hx Hlo. apply Z.bits_inj'. intros i Hi.
  rewrite Z.land_spec, Z.bits_0.
  destruct (Z.lt_ge_cases i n) as [Hlt|Hge].
  - rewrite <- (Z.mod_pow2_bits_low x n i), Hx, Z.bits_0 by lia. reflexivity.
  - rewrite <- (Z.mod_small lo (2 ^ n)) by lia.
    rewrite Z.mod_pow2_bits_high by lia. apply Bool.andb_false_r.
Qed.

Lemma lor_add_disjoint (x lo n : Z) :
  0 <= n -> x mod 2 ^ n = 0 -> 0 <= lo < 2 ^ n -> Z.lor x lo = x + lo.
Proof.
  intros Hn Hx Hlo.
  pose proof (land_disjoint x lo n Hn Hx Hlo) as H.
  rewrite <- Z.lxor_lor by exact H. symmetry. apply Z.add_nocarry_lxor, H.
Qed.

(** The 24-bit value of three source bytes. *)
Lemma val_bytes (b0 b1 b2 : byte) :
  Z.lor (Z.lor (Z.shiftl (byte_to_Z b0) 16) (Z.shiftl (byte_to_Z b1) 8))
        (byte_to_Z b2)
  = byte_to_Z b0 * 65536 + byte_to_Z b1 * 256 + byte_to_Z b2.
Proof.
  pose proof (byte_to_Z_range b0). pose proof (byte_to_Z_range b1).
  pose proof (byte_to_Z_range b2).
  rewrite !Z.shiftl_mul_pow2 by lia.
  change (2 ^ 16) with (256 * 256). change (2 ^ 8) with 256.
  rewrite (lor_add_disjoint _ (byte_to_Z b1 * 256) 16);
    [ | lia | | change (2 ^ 16) with 65536; lia ].
  2:{ change (2 ^ 16) with (256 * 256). apply Z.mod_mul. lia. }
  rewrite (lor_add_disjoint _ (byte_to_Z b2) 8);
    [ lia | lia | | change (2 ^ 8) with 256; lia ].
  replace (byte_to_Z b0 * (256 * 256) + byte_to_Z b1 * 256)
    with ((byte_to_Z b0 * 256 + byte_to_Z b1) * 2 ^ 8)
    by (change (2 ^ 8) with 256; ring).
  apply Z.mod_mul. lia.
Qed.

Lemma val_bytes2 (b0 b1 : byte) :
  Z.lor (Z.shiftl (byte_to_Z b0) 16) (Z.shiftl (byte_to_Z b1) 8)
  = byte_to_Z b0 * 65536 + byte_to_Z b1 * 256 + byte_to_Z x00.
Proof.
  rewrite <- val_bytes. change (byte_to_Z x00) with 0.
  rewrite Z.lor_0_r. reflexivity.
Qed.

Lemma val_bytes1 (b0 : byte) :
  Z.shiftl (byte_to_Z b0) 16
  = byte_to_Z b0 * 65536 + byte_to_Z x00 * 256 + byte_to_Z x00.
Proof.
  rewrite <- val_bytes. change (byte_to_Z x00) with 0.
  change (Z.shiftl 0 8) with 0. rewrite !Z.lor_0_r. reflexivity.
Qed.

Lemma digits_value (s0 s1 s2 s3 : Z) :
  0 <= s1 < 64 -> 0 <= s2 < 64 -> 0 <= s3 < 64 ->
  Z.lor (Z.lor (Z.lor (Z.shiftl s0 18) (Z.shiftl s1 12)) (Z.shiftl s2 6)) s3
  = s0 * 262144 + s1 * 4096 + s2 * 64 + s3.
Proof.
  intros H1 H2 H3. rewrite !Z.shiftl_mul_pow2 by lia.
  change (2 ^ 18) with (64 * 4096). change (2 ^ 12) with 4096.
  change (2 ^ 6) with 64.
  rewrite (lor_add_disjoint (s0 * (64 * 4096)) (s1 * 4096) 18);
    [ | lia | | change (2 ^ 18) with 262144; lia ].
  2:{ change (2 ^ 18) with (64 * 4096). apply Z.mod_mul. lia. }
  rewrite (lor_add_disjoint _ (s2 * 64) 12);
    [ | lia | | change (2 ^ 12) with 4096; lia ].
  2:{ replace (s0 * (64 * 4096) + s1 * 4096) with ((s0 * 64 + s1) * 2 ^ 12)
        by (change (2 ^ 12) with 4096; ring).
      apply Z.mod_mul. lia. }
  rewrite (lor_add_disjoint _ s3 6);
    [ lia | lia | | change (2 ^ 6) with 64; lia ].
  replace (s0 * (64 * 4096) + s1 * 4096 + s2 * 64)
    with ((s0 * 4096 + s1 * 64 + s2) * 2 ^ 6) by (change (2 ^ 6) with 64; ring).
  apply Z.mod_mul. lia.
Qed.

Lemma digit_range (v k : Z) : 0 <= digit v k < 64.
Proof. apply sextet_range. Qed.

Lemma digit_div (v k : Z) : 0 <= k -> digit v k = (v / 2 ^ k) mod 64.
Proof.
  intros Hk. unfold digit. change 63 with (Z.ones 6).
  rewrite Z.land_ones, Z.shiftr_div_pow2 by lia. reflexivity.
Qed.

Lemma byte_of_Z_mod (z : Z) : byte_of_Z (z mod 256) = byte_of_Z z.
Proof. unfold byte_of_Z. rewrite Z.mod_mod by lia. reflexivity. Qed.

(** A quantum of four digits gives back the three bytes they came from. *)
Lemma quantum_digits (b0 b1 b2 : byte) (d3 : Z) (dlen : nat) :
  let v := byte_to_Z b0 * 65536 + byte_to_Z b1 * 256 + byte_to_Z b2 in
  d3 = digit v 0 ->
  quantum [digit v 18; digit v 12; digit v 6; d3] dlen
  = firstn (dlen - 1) [b0; b1; b2].
Proof.
  intros v ->. unfold quantum. cbn [nth].
  pose proof (byte_to_Z_range b0) as R0. pose proof (byte_to_Z_range b1) as R1.
  pose proof (byte_to_Z_range b2) as R2.
  rewrite digits_value by apply digit_range.
  rewrite !digit_div by lia.
  change (2 ^ 18) with 262144. change (2 ^ 12) with 4096.
  change (2 ^ 6) with 64. change (2 ^ 0) with 1.
  replace ((v / 262144) mod 64 * 262144 + (v / 4096) mod 64 * 4096
           + (v / 64) mod 64 * 64 + (v / 1) mod 64) with v
    by (subst v; Z.div_mod_to_equations; lia).
  rewrite !Z.shiftr_div_pow2 by lia.
  change (2 ^ 16) with 65536. change (2 ^ 8) with 256.
  f_equal.
  replace (v / 65536) with (byte_to_Z b0)
    by (subst v; Z.div_mod_to_equations; lia).
  rewrite <- (byte_of_Z_mod (v / 256)), <- (byte_of_Z_mod v).
  replace ((v / 256) mod 256) with (byte_to_Z b1)
    by (subst v; Z.div_mod_to_equations; lia).
  replace (v mod 256) with (byte_to_Z b2)
    by (subst v; Z.div_mod_to_equations; lia).
  rewrite !byte_of_to_Z. reflexivity.
Qed.

Lemma decode_digit (n : Z) (c : byte) (rest : bytes) (si : Z) (dbuf : list Z) :
  decodeMap c <> 255 ->
  decode n (c :: rest) si dbuf =
  match dbuf with
  | [d0; d1; d2] =>
      let (out', err) := decode n rest (si + 1) [] in
      (quantum [d0; d1; d2; decodeMap c] 4 ++ out', err)
  | _ => decode n rest (si + 1) (dbuf ++ [decodeMap c])
  end.
Proof.
  intros H. cbn [decode].
  destruct (Z.eqb_spec (decodeMap c) 255); [contradiction | reflexivity].
Qed.

(** Induction on a list three elements at a time. *)
Lemma list_ind3 {A : Type} (P : list A -> Prop) :
  P [] -> (forall a, P [a]) -> (forall a b, P [a; b]) ->
  (forall a b c l, P l -> P (a :: b :: c :: l)) ->
  forall l, P l.
Proof.
  intros H0 H1 H2 H3.
  assert (H : forall l, P l /\ (forall a, P (a :: l)) /\ (forall a b, P (a :: b :: l))).
  { induction l as [|x l (IH0 & IH1 & IH2)]; repeat split; auto. }
  intros l. apply H.
Qed.

Lemma decode_encoded_digit (n : Z) (v k : Z) (rest : bytes) (si : Z) (dbuf : list Z) :
  decode n (encode (digit v k) :: rest) si dbuf =
  match dbuf with
  | [d0; d1; d2] =>
      let (out', err) := decode n rest (si + 1) [] in
      (quantum [d0; d1; d2; digit v k] 4 ++ out', err)
  | _ => decode n rest (si + 1) (dbuf ++ [digit v k])
  end.
Proof.
  rewrite decode_digit by apply encode_is_digit, digit_range.
  rewrite decodeMap_encode by apply digit_range. reflexivity.
Qed.

Lemma Encode_cons3 (b0 b1 b2 : byte) (rest : bytes) :
  let v := byte_to_Z b0 * 65536 + byte_to_Z b1 * 256 + byte_to_Z b2 in
  Encode (b0 :: b1 :: b2 :: rest)
  = encode (digit v 18) :: encode (digit v 12) :: encode (digit v 6)
      :: encode (digit v 0) :: Encode rest.
Proof.
  intros v. subst v. rewrite <- val_bytes. reflexivity.
Qed.

Lemma Encode_2 (b0 b1 : byte) :
  let v := byte_to_Z b0 * 65536 + byte_to_Z b1 * 256 + byte_to_Z x00 in
  Encode [b0; b1]
  = [encode (digit v 18); encode (digit v 12); encode (digit v 6); StdPadding].
Proof.
  intros v. subst v. rewrite <- val_bytes2. reflexivity.
Qed.

Lemma Encode_1 (b0 : byte) :
  let v := byte_to_Z b0 * 65536 + byte_to_Z x00 * 256 + byte_to_Z x00 in
  Encode [b0] = [encode (digit v 18); encode (digit v 12); StdPadding; StdPadding].
Proof.
  intros v. subst v. rewrite <- val_bytes1. reflexivity.
Qed.

(** Decoding what [Encode] wrote gives the source bytes back, with no
    error. *)
Lemma decode_Encode (src : bytes) :
  forall n si, decode n (Encode src) si [] = (src, None).
Proof.
  induction src as [ | b0 | b0 b1 | b0 b1 b2 rest IH ] using list_ind3;
    intros n si.
  - reflexivity.
  - rewrite Encode_1. cbv zeta.
    rewrite !decode_encoded_digit. cbn [app].
    set (v := byte_to_Z b0 * 65536 + byte_to_Z x00 * 256 + byte_to_Z x00).
    cbn [decode skipNewlines].
    change (decodeMap StdPadding =? 255) with true.
    change (isNewline StdPadding) with false.
    change (Byte.eqb StdPadding StdPadding) with true.
    cbn [negb]. cbv iota. unfold finish. cbn [skipNewlines].
    change (quantum [digit v 18; digit v 12] 2)
      with (quantum [digit v 18; digit v 12; 0; 0] 2).
    assert (E6 : 0 = digit v 6).
    { rewrite digit_div by lia. subst v. change (byte_to_Z x00) with 0.
      pose proof (byte_to_Z_range b0). change (2 ^ 6) with 64.
      Z.div_mod_to_equations; lia. }
    rewrite E6 at 1.
    rewrite (quantum_digits b0 x00 x00); [reflexivity|].
    rewrite digit_div by lia. subst v. change (byte_to_Z x00) with 0.
    pose proof (byte_to_Z_range b0). change (2 ^ 0) with 1.
    Z.div_mod_to_equations; lia.
  - rewrite Encode_2. cbv zeta.
    rewrite !decode_encoded_digit. cbn [app].
    set (v := byte_to_Z b0 * 65536 + byte_to_Z b1 * 256 + byte_to_Z x00).
    cbn [decode skipNewlines].
    change (decodeMap StdPadding =? 255) with true.
    change (isNewline StdPadding) with false.
    change (Byte.eqb StdPadding StdPadding) with true.
    cbn [negb]. cbv iota. unfold finish. cbn [skipNewlines].
    change (quantum [digit v 18; digit v 12; digit v 6] 3)
      with (quantum [digit v 18; digit v 12; digit v 6; 0] 3).
    rewrite (quantum_digits b0 b1 x00); [reflexivity|].
    rewrite digit_div by lia. subst v. change (byte_to_Z x00) with 0.
    pose proof (byte_to_Z_range b0). pose proof (byte_to_Z_range b1).
    change (2 ^ 0) with 1. Z.div_mod_to_equations; lia.
  - rewrite Encode_cons3. cbv zeta.
    rewrite !decode_encoded_digit. cbn [app].
    rewrite IH. rewrite (quantum_digits b0 b1 b2) by reflexivity.
    reflexivity.
Qed.

Lemma DecodeString_EncodeToString (src : bytes) :
  DecodeString (EncodeToString src) = (src, None).
Proof.
  unfold DecodeString, EncodeToString.
  rewrite list_byte_of_string_of_list_byte. apply decode_Encode.
Qed.

Lemma EncodeToString_inj (x y : bytes) :
  EncodeToString x = EncodeToString y -> x = y.
Proof.
  intros H. pose proof (DecodeString_EncodeToString x) as Hx.
  rewrite H, DecodeString_EncodeToString in Hx. congruence.
Qed.

(** [EncodedLen]: four characters for every three bytes, rounded up. *)
Lemma length_Encode (src : bytes) :
  len (Encode src) = 4 * ((len src + 2) / 3).
Proof.
  unfold len.
  induction src as [ | b0 | b0 b1 | b0 b1 b2 rest IH ] using list_ind3;
    try reflexivity.
  change (Encode (b0 :: b1 :: b2 :: rest))
    with (let val := Z.lor (Z.lor (Z.shiftl (byte_to_Z b0) 16)
                                  (Z.shiftl (byte_to_Z b1) 8)) (byte_to_Z b2) in
          encode (Z.land (Z.shiftr val 18) 63)
            :: encode (Z.land (Z.shiftr val 12) 63)
            :: encode (Z.land (Z.shiftr val 6) 63)
            :: encode (Z.land val 63) :: Encode rest).
  cbv zeta. cbn [length].
  rewrite !Nat2Z.inj_succ, IH. Z.div_mod_to_equations; lia.
Qed.

Lemma length_string_of_list_byte (l : bytes) :
  String.length (string_of_list_byte l) = length l.
Proof.
  unfold string_of_list_byte.
  induction l as [|b l IH]; [reflexivity|].
  cbn [map string_of_list_ascii String.length length]. f_equal. exact IH.
Qed.

Lemma length_EncodeToString (src : bytes) :
  Z.of_nat (String.length (EncodeToString src)) = 4 * ((len src + 2) / 3).
Proof.
  unfold EncodeToString. rewrite length_string_of_list_byte.
  apply length_Encode.
Qed.

(** *** What the decoder rejects *)

Lemma isNewline_decodeMap (c : byte) : isNewline c = true -> decodeMap c = 255.
Proof.
  unfold isNewline. rewrite orb_true_iff, !byte_eqb_eq.
  intros [-> | ->]; reflexivity.
Qed.

Lemma skipNewlines_In (c : byte) (src : bytes) (si : Z) :
  isNewline c = false -> In c src -> In c (fst (skipNewlines src si)).
Proof.
  intros Hc. revert si. induction src as [|x rest IH]; intros si Hin.
  - destruct Hin.
  - cbn [skipNewlines]. destruct (isNewline x) eqn:Ex.
    + apply IH. destruct Hin as [-> | Hin]; [congruence | exact Hin].
    + exact Hin.
Qed.

Lemma skipNewlines_significant (src : bytes) (si : Z) :
  significant (fst (skipNewlines src si)) = significant src.
Proof.
  revert si. induction src as [|x rest IH]; intros si; [reflexivity|].
  cbn [skipNewlines significant filter].
  destruct (isNewline x) eqn:Ex; cbn [negb].
  - apply IH.
  - cbn [fst significant filter]. rewrite Ex. reflexivity.
Qed.

Lemma skipNewlines_head (src : bytes) (si : Z) (c : byte) (rest : bytes) :
  fst (skipNewlines src si) = c :: rest -> isNewline c = false.
Proof.
  revert si. induction src as [|x src' IH]; intros si; cbn [skipNewlines].
  - discriminate.
  - destruct (isNewline x) eqn:Ex.
    + apply IH.
    + cbn [fst]. congruence.
Qed.

Lemma finish_foreign (c : byte) (rest : bytes) (si : Z) (dbuf : list Z) (dlen : nat) :
  isNewline c = false -> In c rest -> snd (finish rest si dbuf dlen) <> None.
Proof.
  intros Hc Hin. unfold finish.
  pose proof (skipNewlines_In c rest si Hc Hin) as H.
  destruct (skipNewlines rest si) as [rest' si']. cbn [fst snd] in *.
  destruct rest'; [destruct H | discriminate].
Qed.

Lemma finish_ok (rest : bytes) (si : Z) (dbuf : list Z) (dlen : nat) :
  snd (finish rest si dbuf dlen) = None -> significant rest = [].
Proof.
  unfold finish. rewrite <- (skipNewlines_significant rest si).
  destruct (skipNewlines rest si) as [rest' si']. cbn [fst snd].
  destruct rest'; [reflexivity | discriminate].
Qed.

Lemma foreign_spec (c : byte) :
  foreign c = true ->
  decodeMap c = 255 /\ isNewline c = false /\ c <> StdPadding.
Proof.
  unfold foreign. rewrite !andb_true_iff, !negb_true_iff, Z.eqb_eq, byte_eqb_neq.
  tauto.
Qed.

(** An input with a foreign character anywhere is rejected. *)
Lemma decode_foreign (c : byte) (src : bytes) :
  foreign c = true -> In c src ->
  forall n si dbuf, snd (decode n src si dbuf) <> None.
Proof.
  intros Hc. destruct (foreign_spec c Hc) as (Hmap & Hnl & Hpad).
  induction src as [|x rest IH]; intros Hin n si dbuf; [destruct Hin|].
  cbn [decode]. destruct (Z.eqb_spec (decodeMap x) 255) as [Ex|Ex].
  - destruct (isNewline x) eqn:Enl.
    { apply IH. destruct Hin as [-> | Hin]; [congruence | exact Hin]. }
    destruct (Byte.eqb x StdPadding) eqn:Epad; cbn [negb]; [|discriminate].
    apply byte_eqb_eq in Epad. subst x.
    assert (Hrest : In c rest)
      by (destruct Hin as [E | Hin]; [congruence | exact Hin]).
    destruct dbuf as [|d0 [|d1 [|d2 dbuf]]]; try discriminate.
    + pose proof (skipNewlines_In c rest (si + 1) Hnl Hrest) as H1.
      destruct (skipNewlines rest (si + 1)) as [rest1 si1]. cbn [fst] in H1.
      destruct rest1 as [|c2 rest2]; [destruct H1|].
      destruct (Byte.eqb c2 StdPadding) eqn:E2; cbn [negb]; [|discriminate].
      apply byte_eqb_eq in E2. subst c2.
      apply finish_foreign with c; trivial.
      destruct H1 as [E | H1]; [congruence | exact H1].
    + apply finish_foreign with c; trivial.
  - assert (Hrest : In c rest)
      by (destruct Hin as [E | Hin]; [congruence | exact Hin]).
    destruct dbuf as [|d0 [|d1 [|d2 [|d3 dbuf]]]]; try (apply IH; exact Hrest).
    specialize (IH Hrest n (si + 1) []).
    destruct (decode n rest (si + 1) []) as [out' err]. exact IH.
Qed.

(** An input the decoder accepts has, newlines apart, a multiple of four
    characters. *)
Lemma decode_ok_length (src : bytes) :
  forall n si dbuf, (length dbuf < 4)%nat ->
  snd (decode n src si dbuf) = None ->
  ((length dbuf + length (significant src)) mod 4 = 0)%nat.
Proof.
  induction src as [|x rest IH]; intros n si dbuf Hlen Hok.
  - destruct dbuf; [reflexivity | discriminate].
  - cbn [decode] in Hok. destruct (Z.eqb_spec (decodeMap x) 255) as [Ex|Ex].
    + destruct (isNewline x) eqn:Enl.
      { cbn [significant filter]. rewrite Enl. cbn [negb]. eauto. }
      cbn [significant filter]. rewrite Enl. cbn [negb length].
      destruct (Byte.eqb x StdPadding) eqn:Epad; cbn [negb] in Hok;
        [|discriminate].
      destruct dbuf as [|d0 [|d1 [|d2 [|d3 dbuf]]]]; try discriminate;
        [ | | cbn [length] in Hlen; lia ].
      * pose proof (skipNewlines_significant rest (si + 1)) as Hsig.
        pose proof (skipNewlines_head rest (si + 1)) as Hhead.
        destruct (skipNewlines rest (si + 1)) as [rest1 si1].
        cbn [fst] in Hsig, Hhead.
        destruct rest1 as [|c2 rest2]; [discriminate|].
        destruct (Byte.eqb c2 StdPadding); cbn [negb] in Hok; [|discriminate].
        apply finish_ok in Hok. fold (significant rest). rewrite <- Hsig.
        cbn [significant filter]. rewrite (Hhead c2 rest2 eq_refl).
        cbn [negb]. fold (significant rest2). rewrite Hok. reflexivity.
      * apply finish_ok in Hok. fold (significant rest). rewrite Hok.
        reflexivity.
    + assert (Enl : isNewline x = false).
      { destruct (isNewline x) eqn:E; [|reflexivity].
        apply isNewline_decodeMap in E. contradiction. }
      cbn [significant filter]. rewrite Enl. cbn [negb length].
      fold (significant rest).
      destruct dbuf as [|d0 [|d1 [|d2 [|d3 dbuf]]]];
        [ | | | | cbn [length] in Hlen; lia ].
      1-3: match type of Hok with
           | snd (decode _ _ _ ?d) = None =>
               specialize (IH n (si + 1) d ltac:(cbn; lia) Hok)
           end;
        cbn [app length] in *;
        match type of IH with
        | (?b mod 4 = 0)%nat =>
            match goal with
            | |- (?a mod 4 = 0)%nat => replace a with b by lia; exact IH
            end
        end.
      specialize (IH n (si + 1) [] ltac:(cbn; lia)).
      destruct (decode n rest (si + 1) []) as [out' err]. cbn [snd] in *.
      specialize (IH Hok). cbn [length] in *.
      replace (3 + S (length (significant rest)))%nat
        with (length (significant rest) + 1 * 4)%nat by lia.
      rewrite Nat.Div0.mod_add. exact IH.
Qed.

(** Every error of the decoder is a [CorruptInputError]. *)
Lemma finish_error (rest : bytes) (si : Z) (dbuf : list Z) (dlen : nat) (e : error) :
  snd (finish rest si dbuf dlen) = Some e -> exists offset, e = CorruptInputError offset.
Proof.
  unfold finish. destruct (skipNewlines rest si) as [rest' si']. cbn [snd].
  destruct rest'; [discriminate|]. intros E. injection E as <-. eauto.
Qed.

Lemma decode_error (src : bytes) :
  forall n si dbuf e,
    snd (decode n src si dbuf) = Some e -> exists offset, e = CorruptInputError offset.
Proof.
  induction src as [|x rest IH]; intros n si dbuf e.
  - cbn [decode]. destruct dbuf; cbn [snd]; [discriminate|].
    intros E. injection E as <-. eauto.
  - cbn [decode]. destruct (decodeMap x =? 255).
    + destruct (isNewline x); [apply IH|].
      destruct (negb (Byte.eqb x StdPadding));
        [cbn [snd]; intros E; injection E as <-; eauto|].
      destruct dbuf as [|d0 [|d1 [|d2 dbuf]]];
        try (cbn [snd]; intros E; injection E as <-; eauto; fail).
      * destruct (skipNewlines rest (si + 1)) as [rest1 si1].
        destruct rest1 as [|c2 rest2];
          [cbn [snd]; intros E; injection E as <-; eauto|].
        destruct (negb (Byte.eqb c2 StdPadding));
          [cbn [snd]; intros E; injection E as <-; eauto|].
        apply finish_error.
      * apply finish_error.
    + destruct dbuf as [|d0 [|d1 [|d2 [|d3 dbuf]]]]; try apply IH.
      specialize (IH n (si + 1) [] e).
      destruct (decode n rest (si + 1) []) as [out' err]. exact IH.
Qed.

(** *** What the decoder accepts *)

Lemma wellPadded_cons4 (a b c d : byte) (rest : bytes) :
  wellPadded (a :: b :: c :: d :: rest) =
  match rest with
  | [] =>
      isDigit a && isDigit b
      && ((isDigit c && isDigit d) || (isDigit c && isPadding d)
          || (isPadding c && isPadding d))
  | _ :: _ =>
      isDigit a && isDigit b && isDigit c && isDigit d && wellPadded rest
  end.
Proof. destruct rest; reflexivity. Qed.

Lemma finish_ok_iff (rest : bytes) (si : Z) (dbuf : list Z) (dlen : nat) :
  snd (finish rest si dbuf dlen) = None <-> significant rest = [].
Proof.
  split; [apply finish_ok|].
  unfold finish. rewrite <- (skipNewlines_significant rest si).
  pose proof (skipNewlines_head rest si) as Hhead.
  destruct (skipNewlines rest si) as [rest' si']. cbn [fst snd] in *.
  destruct rest' as [|c r]; [reflexivity|].
  cbn [significant filter]. rewrite (Hhead c r eq_refl). discriminate.
Qed.

(** The three kinds of characters that are not skipped. *)
Lemma digit_class (c : byte) :
  decodeMap c <> 255 -> isDigit c = true /\ isPadding c = false /\ isNewline c = false.
Proof.
  intros H. unfold isDigit, isPadding. repeat split.
  - apply negb_true_iff, Z.eqb_neq, H.
  - apply byte_eqb_neq. intros ->. apply H. reflexivity.
  - destruct (isNewline c) eqn:E; [|reflexivity].
    apply isNewline_decodeMap in E. contradiction.
Qed.

Lemma foreign_class (c : byte) :
  decodeMap c = 255 -> Byte.eqb c StdPadding = false ->
  isDigit c = false /\ isPadding c = false.
Proof.
  intros H1 H2. unfold isDigit, isPadding. rewrite H1, H2. split; reflexivity.
Qed.

(** With [j] digits of the current quantum already read, the decoder
    accepts the rest of the input exactly when those digits followed by
    the rest, newlines apart, are well padded. *)
Lemma decode_accepts (src : bytes) :
  forall n si dbuf, (length dbuf <= 3)%nat ->
  snd (decode n src si dbuf) = None <->
  wellPadded (repeat "A"%byte (length dbuf) ++ significant src) = true.
Proof.
  induction src as [|x rest IH]; intros n si dbuf Hlen.
  - destruct dbuf as [|d0 [|d1 [|d2 [|d3 dbuf]]]]; cbn; split;
      try reflexivity; try discriminate; cbn in Hlen; lia.
  - cbn [decode]. destruct (Z.eqb_spec (decodeMap x) 255) as [Ex|Ex].
    + destruct (isNewline x) eqn:Enl.
      { cbn [significant filter]. rewrite Enl. cbn [negb]. apply IH, Hlen. }
      cbn [significant filter]. rewrite Enl. cbn [negb].
      fold (significant rest).
      destruct (Byte.eqb x StdPadding) eqn:Epad; cbn [negb].
      * apply byte_eqb_eq in Epad. subst x.
        destruct dbuf as [|d0 [|d1 [|d2 [|d3 dbuf]]]];
          [ | | | | cbn in Hlen; lia ]; cbn [length repeat app snd].
        -- split; [discriminate|].
           destruct (significant rest) as [|p1 [|p2 [|p3 r]]];
             try discriminate; rewrite wellPadded_cons4; destruct r;
             discriminate.
        -- split; [discriminate|].
           destruct (significant rest) as [|p1 [|p2 r]];
             try discriminate; rewrite wellPadded_cons4; destruct r;
             cbn; rewrite ?andb_false_r; discriminate.
        -- pose proof (skipNewlines_significant rest (si + 1)) as Hsig.
           pose proof (skipNewlines_head rest (si + 1)) as Hhead.
           destruct (skipNewlines rest (si + 1)) as [rest1 si1].
           cbn [fst] in Hsig, Hhead. rewrite <- Hsig.
           destruct rest1 as [|c2 rest2]; [cbn; split; discriminate|].
           cbn [significant filter]. rewrite (Hhead c2 rest2 eq_refl).
           cbn [negb]. fold (significant rest2). rewrite wellPadded_cons4.
           destruct (Byte.eqb c2 StdPadding) eqn:E2; cbn [negb].
           ++ rewrite finish_ok_iff.
              destruct (significant rest2); cbn; unfold isPadding; rewrite ?E2;
                split; intros; reflexivity || discriminate.
           ++ cbn [snd]. destruct (significant rest2); cbn; unfold isPadding;
                rewrite ?E2; split; discriminate.
        -- rewrite finish_ok_iff, wellPadded_cons4.
           destruct (significant rest); cbn;
             split; intros; reflexivity || discriminate.
      * destruct (foreign_class x Ex Epad) as [Hd Hp]. cbn [snd].
        split; [discriminate|].
        destruct dbuf as [|d0 [|d1 [|d2 [|d3 dbuf]]]];
          [ | | | | cbn in Hlen; lia ]; cbn [length repeat app].
        -- destruct (significant rest) as [|p1 [|p2 [|p3 r]]];
             try discriminate; rewrite wellPadded_cons4, Hd; destruct r;
             discriminate.
        -- destruct (significant rest) as [|p1 [|p2 r]];
             try discriminate; rewrite wellPadded_cons4, Hd; destruct r;
             cbn; rewrite ?andb_false_r; discriminate.
        -- destruct (significant rest) as [|p1 r];
             try discriminate; rewrite wellPadded_cons4, Hd, Hp; destruct r;
             cbn; rewrite ?andb_false_r; discriminate.
        -- rewrite wellPadded_cons4, Hd, Hp. destruct (significant rest);
             cbn; rewrite ?andb_false_r; discriminate.
    + destruct (digit_class x Ex) as (Hd & Hp & Enl).
      cbn [significant filter]. rewrite Enl. cbn [negb].
      fold (significant rest).
      destruct dbuf as [|d0 [|d1 [|d2 [|d3 dbuf]]]];
        [ | | | | cbn in Hlen; lia ].
      * rewrite (IH n (si + 1) ([] ++ [decodeMap x])) by (cbn; lia).
        cbn [length repeat app].
        destruct (significant rest) as [|p1 [|p2 [|p3 r]]]; try reflexivity.
        rewrite !wellPadded_cons4, Hd. reflexivity.
      * rewrite (IH n (si + 1) ([d0] ++ [decodeMap x])) by (cbn; lia).
        cbn [length repeat app].
        destruct (significant rest) as [|p1 [|p2 r]]; try reflexivity.
        rewrite !wellPadded_cons4, Hd. reflexivity.
      * rewrite (IH n (si + 1) ([d0; d1] ++ [decodeMap x])) by (cbn; lia).
        cbn [length repeat app].
        destruct (significant rest) as [|p1 r]; try reflexivity.
        rewrite !wellPadded_cons4, Hd, Hp. reflexivity.
      * specialize (IH n (si + 1) [] ltac:(cbn; lia)).
        destruct (decode n rest (si + 1) []) as [out' err]. cbn [snd] in *.
        rewrite IH. cbn [length repeat app]. rewrite wellPadded_cons4, Hd.
        destruct (significant rest); reflexivity.
Qed.

(** [DecodeString] accepts exactly the strings that, CR and LF apart,
    are standard padded base64. *)
Lemma DecodeString_accepts (s : string) :
  snd (DecodeString s) = None <->
  wellPadded (significant (list_byte_of_string s)) = true.
Proof.
  unfold DecodeString. rewrite decode_accepts by (cbn; lia). reflexivity.
Qed.

(** The decoder rejects whatever is not standard padded base64, in
    particular the characters of the URL-safe alphabet and missing
    padding. *)
Lemma DecodeString_rejects (s : string) :
  In ("-"%byte) (list_byte_of_string s)
  \/ In ("_"%byte) (list_byte_of_string s)
  \/ (length (significant (list_byte_of_string s)) mod 4 <> 0)%nat
  \/ wellPadded (significant (list_byte_of_string s)) = false ->
  exists data offset, DecodeString s = (data, Some (CorruptInputError offset)).
Proof.
  intros H. unfold DecodeString.
  set (src := list_byte_of_string s) in *.
  assert (Hne : snd (decode (len src) src 0 []) <> None).
  { destruct H as [H | [H | [H | H]]].
    - apply decode_foreign with "-"%byte; [reflexivity | exact H].
    - apply decode_foreign with "_"%byte; [reflexivity | exact H].
    - intros Hok. apply H.
      apply (decode_ok_length src (len src) 0 []) in Hok; [exact Hok|].
      cbn [length]. lia.
    - intros Hok. apply (decode_accepts src (len src) 0 []) in Hok;
        [|cbn; lia].
      cbn [length repeat app] in Hok. congruence. }
  destruct (decode (len src) src 0 []) as [data [e|]] eqn:E;
    [|contradiction].
  pose proof (decode_error src (len src) 0 [] e) as He.
  rewrite E in He. destruct (He eq_refl) as [offset ->]. eauto.
Qed.

End base64_facts.

(** ** GCM *)

Module gcm_facts.
Import cipher.

Lemma length_be_bytes (n : nat) (z : Z) : length (be_bytes n z) = n.
Proof.
  induction n as [|n IH]; cbn [be_bytes length]; [reflexivity | now rewrite IH].
Qed.

Lemma lxor_byte_range (a b : Z) :
  0 <= a < 256 -> 0 <= b < 256 -> 0 <= Z.lxor a b < 256.
Proof.
  intros Ha Hb.
  assert (Hnn : 0 <= Z.lxor a b) by (apply Z.lxor_nonneg; lia).
  split; [exact Hnn|].
  destruct (Z.eq_dec (Z.lxor a b) 0) as [E|E]; [lia|].
  change 256 with (2 ^ 8). apply Z.log2_lt_pow2; [lia|].
  pose proof (Z.log2_lxor a b ltac:(lia) ltac:(lia)) as Hl.
  assert (La : Z.log2 a < 8).
  { destruct (Z.eq_dec a 0) as [->|]; [reflexivity|].
    apply Z.log2_lt_pow2; change (2 ^ 8) with 256; lia. }
  assert (Lb : Z.log2 b < 8).
  { destruct (Z.eq_dec b 0) as [->|]; [reflexivity|].
    apply Z.log2_lt_pow2; change (2 ^ 8) with 256; lia. }
  lia.
Qed.

Lemma length_xorBytes (x y : bytes) :
  length (xorBytes x y) = Nat.min (length x) (length y).
Proof.
  revert y. induction x as [|a x IH]; intros [|b y]; cbn [xorBytes length];
    try reflexivity.
  rewrite IH. reflexivity.
Qed.

(** Xoring twice with the same key stream gives the input back. *)
Lemma xorBytes_involutive (x k : bytes) :
  (length x <= length k)%nat -> xorBytes (xorBytes x k) k = x.
Proof.
  revert k. induction x as [|a x IH]; intros [|b k] Hlen;
    cbn [xorBytes length] in *; try reflexivity; try lia.
  rewrite IH by lia. f_equal.
  pose proof (byte_to_Z_range a). pose proof (byte_to_Z_range b).
  rewrite byte_to_of_Z by (apply lxor_byte_range; assumption).
  rewrite Z.lxor_assoc, Z.lxor_nilpotent, Z.lxor_0_r.
  apply byte_of_to_Z.
Qed.

Lemma ConstantTimeCompare_eq (x y : bytes) :
  ConstantTimeCompare x y = true <-> x = y.
Proof.
  revert y. induction x as [|a x IH]; intros [|b y]; cbn [ConstantTimeCompare];
    try (split; [discriminate | congruence]); [tauto|].
  rewrite andb_true_iff, byte_eqb_eq, IH. split.
  - intros [-> ->]. reflexivity.
  - intros E. injection E. auto.
Qed.

Section WithBlock.

Variable b : Block.

Lemma length_keystream (k : nat) (counter : Z) :
  length (keystream b k counter) = (16 * k)%nat.
Proof.
  revert counter. induction k as [|k IH]; intros counter; [reflexivity|].
  cbn [keystream]. rewrite length_app, length_be_bytes, IH. lia.
Qed.

Lemma blocks_needed (input : bytes) :
  (length input <= 16 * Z.to_nat ((len input + 15) / 16))%nat.
Proof.
  unfold len. 
  assert (H : Z.of_nat (length input) <= 16 * ((Z.of_nat (length input) + 15) / 16))
    by (Z.div_mod_to_equations; lia).
  assert (0 <= (Z.of_nat (length input) + 15) / 16)
    by (Z.div_mod_to_equations; lia).
  lia.
Qed.

Lemma length_counterCrypt (input : bytes) (counter : Z) :
  length (counterCrypt b input counter) = length input.
Proof.
  unfold counterCrypt. rewrite length_xorBytes, length_keystream.
  pose proof (blocks_needed input). lia.
Qed.

(** Counter mode is its own inverse. *)
Lemma counterCrypt_involutive (input : bytes) (counter : Z) :
  counterCrypt b (counterCrypt b input counter) counter = input.
Proof.
  unfold counterCrypt at 1. unfold len. rewrite length_counterCrypt.
  apply xorBytes_involutive. rewrite length_keystream. apply blocks_needed.
Qed.

Lemma length_auth (ciphertext data : bytes) (tagMask : Z) :
  length (auth b ciphertext data tagMask) = 16%nat.
Proof. apply length_be_bytes. Qed.

(** What [Seal] returns when it returns. *)
Lemma gcmSeal_returns (dst nonce plaintext data out : bytes) :
  gcmSeal b dst nonce plaintext data = Returns out ->
  len nonce = 12 /\ len plaintext <= gcmMaxPlaintext /\
  let counter := deriveCounter nonce in
  let body := counterCrypt b plaintext (gcmInc32 counter) in
  out = dst ++ body ++ auth b body data (encryptZ b counter).
Proof.
  unfold gcmSeal, gcmStandardNonceSize.
  destruct (Z.eqb_spec (len nonce) 12) as [Hn|Hn]; cbn [negb]; [|discriminate].
  destruct (Z.ltb_spec gcmMaxPlaintext (len plaintext)) as [Hp|Hp];
    [discriminate|].
  intros E. injection E as <-. auto.
Qed.

Lemma gcmSeal_succeeds (dst nonce plaintext data : bytes) :
  len nonce = 12 -> len plaintext <= gcmMaxPlaintext ->
  exists out, gcmSeal b dst nonce plaintext data = Returns out.
Proof.
  intros Hn Hp. unfold gcmSeal, gcmStandardNonceSize.
  rewrite Hn. cbn [Z.eqb Pos.eqb negb].
  destruct (Z.ltb_spec gcmMaxPlaintext (len plaintext)); [lia|].
  eexists. reflexivity.
Qed.

(** The length of a sealed message: the plaintext and the tag. *)
Lemma gcmSeal_length (nonce plaintext data out : bytes) :
  gcmSeal b [] nonce plaintext data = Returns out ->
  len out = len plaintext + 16.
Proof.
  intros H. apply gcmSeal_returns in H. destruct H as (_ & _ & ->).
  cbn [app]. rewrite len_app. unfold len.
  rewrite length_counterCrypt, length_auth. lia.
Qed.

(** [Open] accepts what [Seal] produced under the same nonce and
    additional data, and returns the plaintext. *)
Lemma gcmOpen_gcmSeal (nonce plaintext data out : bytes) :
  gcmSeal b [] nonce plaintext data = Returns out ->
  gcmOpen b [] nonce out data = Returns (plaintext, None).
Proof.
  intros H. pose proof (gcmSeal_length _ _ _ _ H) as Hlen.
  apply gcmSeal_returns in H. destruct H as (Hn & Hp & Hout).
  cbv zeta in Hout. cbn [app] in Hout.
  set (counter := deriveCounter nonce) in *.
  set (body := counterCrypt b plaintext (gcmInc32 counter)) in *.
  set (tag := auth b body data (encryptZ b counter)) in *.
  unfold gcmOpen, gcmStandardNonceSize, gcmTagSize.
  rewrite Hn. cbn [Z.eqb Pos.eqb negb].
  pose proof (len_nonneg plaintext).
  destruct (Z.ltb_spec (len out) 16); [lia|].
  destruct (Z.ltb_spec (gcmMaxPlaintext + 16) (len out)); [lia|].
  assert (Hbody : length body = length plaintext)
    by apply length_counterCrypt.
  assert (Hsplit : (length out - 16 = length body)%nat).
  { subst out. rewrite length_app. subst tag. rewrite length_auth. lia. }
  rewrite Hsplit. subst out.
  rewrite skipn_app, skipn_all, Nat.sub_diag, firstn_app, firstn_all,
    Nat.sub_diag. cbn [skipn firstn app]. rewrite app_nil_r.
  fold counter. fold tag.
  assert (Htag : ConstantTimeCompare tag tag = true)
    by (apply ConstantTimeCompare_eq; reflexivity).
  rewrite Htag. cbn [negb app]. subst body.
  rewrite counterCrypt_involutive. reflexivity.
Qed.

(** A message too short to hold a tag is rejected. *)
Lemma gcmOpen_short (nonce ciphertext data : bytes) :
  len nonce = 12 -> len ciphertext < 16 ->
  gcmOpen b [] nonce ciphertext data = Returns ([], Some errOpen).
Proof.
  intros Hn Hc. unfold gcmOpen, gcmStandardNonceSize, gcmTagSize.
  rewrite Hn. cbn [Z.eqb Pos.eqb negb].
  destruct (Z.ltb_spec (len ciphertext) 16); [reflexivity | lia].
Qed.

(** [Open] never panics on a 12-byte nonce, and an error comes without
    plaintext and is always [errOpen]. *)
Lemma gcmOpen_outcome (nonce ciphertext data : bytes) :
  len nonce = 12 ->
  gcmOpen b [] nonce ciphertext data = Returns ([], Some errOpen) \/
  exists plaintext, gcmOpen b [] nonce ciphertext data = Returns (plaintext, None).
Proof.
  intros Hn. unfold gcmOpen, gcmStandardNonceSize.
  rewrite Hn. cbn [Z.eqb Pos.eqb negb].
  destruct (len ciphertext <? gcmTagSize); [left; reflexivity|].
  destruct (gcmMaxPlaintext + gcmTagSize <? len ciphertext);
    [left; reflexivity|].
  match goal with
  | |- context [negb ?c] => destruct c; cbn [negb]
  end; [right; eexists; reflexivity | left; reflexivity].
Qed.

End WithBlock.

End gcm_facts.

(** ** The random source *)

Lemma io_ReadFull_ok (r r' : Reader) (n : nat) (buf : bytes) :
  io_ReadFull r n = ((buf, None), r') ->
  length buf = n /\ buf = firstn n (pending r) /\
  pending r' = skipn n (pending r) /\ (n <= length (pending r))%nat.
Proof.
  unfold io_ReadFull. destruct (Nat.leb_spec n (length (pending r))) as [H|H].
  - intros E. injection E as <- <-. cbn [pending].
    rewrite length_firstn. repeat split; lia.
  - discriminate.
Qed.

Lemma io_ReadFull_error (r r' : Reader) (n : nat) (buf : bytes) (e : error) :
  io_ReadFull r n = ((buf, Some e), r') -> (length (pending r) < n)%nat.
Proof.
  unfold io_ReadFull. destruct (Nat.leb_spec n (length (pending r))) as [H|H].
  - discriminate.
  - intros _. exact H.
Qed.

(** ** The package with Go's [crypto/aes] and [crypto/cipher] *)

Lemma len_32 (key : bytes) : length key = 32%nat -> len key = 32.
Proof. unfold len. intros ->. reflexivity. Qed.

Lemma NewCipher_32 (key : bytes) :
  length key = 32%nat -> aes.NewCipher key = Ok (aesBlock key).
Proof.
  intros H. unfold aes.NewCipher. rewrite (len_32 key H). reflexivity.
Qed.

Lemma NewGCM_aesBlock (key : bytes) :
  cipher.NewGCM (aesBlock key)
  = Ok {| cipher.NonceSize := 12; cipher.Overhead := 16;
          cipher.Seal := cipher.gcmSeal (aesBlock key);
          cipher.Open := cipher.gcmOpen (aesBlock key) |}.
Proof. reflexivity. Qed.

(** [Encrypt] under a 32-byte key: the nonce is read, the plaintext
    sealed, the two concatenated and encoded. *)
Lemma Encrypt_32 (plaintext key : bytes) (rd : Reader) :
  length key = 32%nat ->
  Encrypt plaintext key rd =
  let '((nonce, err), rd') := io_ReadFull rd 12 in
  match err with
  | Some err =>
      (Returns (EmptyString, Some (fmt_Errorf "nonce generation failed: %w" err)),
       rd')
  | None =>
      match cipher.gcmSeal (aesBlock key) [] nonce plaintext [] with
      | Panics msg => (Panics msg, rd')
      | Returns ciphertext =>
          (Returns (base64.EncodeToString (nonce ++ ciphertext), None), rd')
      end
  end.
Proof.
  intros H. unfold Encrypt. rewrite (len_32 key H).
  cbn [Z.eqb Pos.eqb negb aes_NewCipher cipher_NewGCM go_crypto].
  rewrite (NewCipher_32 key H), NewGCM_aesBlock. reflexivity.
Qed.

(** [Decrypt] under a 32-byte key. *)
Lemma Decrypt_32 (envelope : string) (key : bytes) :
  length key = 32%nat ->
  Decrypt envelope key =
  let (data, err) := base64.DecodeString envelope in
  match err with
  | Some err => Returns ([], Some (fmt_Errorf "base64 decode failed: %w" err))
  | None =>
      if len data <? 12 then
        Returns ([], Some (errors_New "ciphertext too short"))
      else
        match cipher.gcmOpen (aesBlock key) [] (firstn 12 data) (skipn 12 data) []
        with
        | Panics msg => Panics msg
        | Returns (plaintext, Some err) =>
            Returns ([], Some (fmt_Errorf "decryption failed: %w" err))
        | Returns (plaintext, None) => Returns (plaintext, None)
        end
  end.
Proof.
  intros H. unfold Decrypt. rewrite (len_32 key H).
  cbn [Z.eqb Pos.eqb negb aes_NewCipher cipher_NewGCM go_crypto].
  rewrite (NewCipher_32 key H), NewGCM_aesBlock. reflexivity.
Qed.

(** What a successful [Encrypt] did: it drew twelve bytes from the
    source as the nonce, sealed the plaintext under it and encoded the
    nonce followed by the sealed bytes. *)
Lemma Encrypt_returns (plaintext key : bytes) (rd rd' : Reader) (env : string) :
  Encrypt plaintext key rd = (Returns (env, None), rd') ->
  length key = 32%nat /\
  exists nonce sealed,
    io_ReadFull rd 12 = ((nonce, None), rd') /\
    length nonce = 12%nat /\
    cipher.gcmSeal (aesBlock key) [] nonce plaintext [] = Returns sealed /\
    env = base64.EncodeToString (nonce ++ sealed).
Proof.
  intros H.
  assert (Hk : length key = 32%nat).
  { unfold Encrypt in H. destruct (Z.eqb_spec (len key) 32) as [E|E].
    - unfold len in E. lia.
    - cbn [negb] in H. discriminate. }
  split; [exact Hk|].
  rewrite (Encrypt_32 _ _ _ Hk) in H.
  destruct (io_ReadFull rd 12) as [[nonce [e|]] rd1] eqn:Hread;
    [discriminate|].
  destruct (cipher.gcmSeal (aesBlock key) [] nonce plaintext []) as [sealed|m]
    eqn:Hseal; [|discriminate].
  injection H as <- <-. exists nonce, sealed.
  apply io_ReadFull_ok in Hread. tauto.
Qed.

(** The decoded envelope splits back into nonce and sealed bytes. *)
Lemma split_nonce (nonce sealed : bytes) :
  length nonce = 12%nat ->
  firstn 12 (nonce ++ sealed) = nonce /\ skipn 12 (nonce ++ sealed) = sealed.
Proof.
  intros H. split.
  - rewrite <- H, firstn_app, Nat.sub_diag, firstn_all, firstn_O.
    apply app_nil_r.
  - rewrite <- H, skipn_app, Nat.sub_diag, skipn_all. reflexivity.
Qed.

(** With a key of any other length both functions stop at the first
    check. *)
Lemma wrong_key_length (plaintext key : bytes) (envelope : string) (rd : Reader) :
  length key <> 32%nat ->
  Encrypt plaintext key rd
  = (Returns (EmptyString, Some (errors_New "key must be 32 bytes for AES-256")),
     rd)
  /\ Decrypt envelope key
     = Returns ([], Some (errors_New "key must be 32 bytes for AES-256")).
Proof.
  intros Hk.
  assert (E : (len key =? 32) = false) by (apply Z.eqb_neq; unfold len; lia).
  unfold Encrypt, Decrypt. rewrite E. cbn [negb]. auto.
Qed.

(** *** Round trip *)

(** C1. For every 32-byte key and every plaintext, empty or not: an
    envelope returned by [Encrypt] is decrypted by [Decrypt] under the same
    key, without error, to exactly the plaintext. *)
Theorem Decrypt_Encrypt_roundtrip :
  forall (plaintext key : bytes) (rd rd' : Reader) (envelope : string),
    length key = 32%nat ->
    Encrypt plaintext key rd = (Returns (envelope, None), rd') ->
    Decrypt envelope key = Returns (plaintext, None).
Proof.
  intros plaintext key rd rd' envelope Hk H.
  apply Encrypt_returns in H.
  destruct H as (_ & nonce & sealed & _ & Hn & Hseal & ->).
  rewrite (Decrypt_32 _ _ Hk), base64_facts.DecodeString_EncodeToString.
  pose proof (gcm_facts.gcmSeal_length _ _ _ _ _ Hseal) as Hlen.
  destruct (Z.ltb_spec (len (nonce ++ sealed)) 12) as [Hs|Hs].
  { rewrite len_app in Hs. pose proof (len_nonneg plaintext).
    unfold len in *. lia. }
  destruct (split_nonce nonce sealed Hn) as [-> ->].
  rewrite (gcm_facts.gcmOpen_gcmSeal _ _ _ _ _ Hseal). reflexivity.
Qed.

(** [Encrypt] does return an envelope whenever the key has 32 bytes, the
    source still holds twelve bytes and the plaintext is within the limit
    of one GCM call. *)
Lemma Encrypt_succeeds (plaintext key : bytes) (rd : Reader) :
  length key = 32%nat -> (12 <= length (pending rd))%nat ->
  len plaintext <= cipher.gcmMaxPlaintext ->
  exists envelope rd', Encrypt plaintext key rd = (Returns (envelope, None), rd').
Proof.
  intros Hk Hrd Hp. rewrite (Encrypt_32 _ _ _ Hk).
  unfold io_ReadFull.
  destruct (Nat.leb_spec 12 (length (pending rd))) as [_|]; [|lia].
  destruct (gcm_facts.gcmSeal_succeeds (aesBlock key) []
              (firstn 12 (pending rd)) plaintext []) as [out Hout]; trivial.
  { unfold len. rewrite length_firstn. lia. }
  rewrite Hout. eauto.
Qed.

Lemma Decrypt_Encrypt_roundtrip_hello :
  Encrypt hello zeroKey zeroSource
  = (Returns ("AAAAAAAAAAAAAAAApsIsUSKLkI9/Yv/Opqkvq+85v02T"%string, None),
     {| pending := repeat x00 52; failure := EOF |})
  /\ Decrypt "AAAAAAAAAAAAAAAApsIsUSKLkI9/Yv/Opqkvq+85v02T" zeroKey
     = Returns (hello, None).
Proof.
  split.
  - vm_compute. reflexivity.
  - apply (Decrypt_Encrypt_roundtrip hello zeroKey zeroSource
             {| pending := repeat x00 52; failure := EOF |}).
    + reflexivity.
    + vm_compute. reflexivity.
Defined.

(** *** Key length *)

(** C3. With a key whose length is not 32, [Encrypt] and [Decrypt] return
    the key-length error whatever the plaintext, the envelope and the state
    of the random source are; nothing is read from the source. *)
Theorem key_length_enforced :
  forall (plaintext key : bytes) (envelope : string) (rd : Reader),
    length key <> 32%nat ->
    Encrypt plaintext key rd
    = (Returns (EmptyString, Some (errors_New "key must be 32 bytes for AES-256")),
       rd)
    /\ Decrypt envelope key
       = Returns ([], Some (errors_New "key must be 32 bytes for AES-256"))
    /\ kind (errors_New "key must be 32 bytes for AES-256") = Some InvalidKeyLength.
Proof.
  intros plaintext key envelope rd Hk.
  destruct (wrong_key_length plaintext key envelope rd Hk) as [HE HD].
  repeat split; assumption || reflexivity.
Qed.

Lemma key_length_enforced_16 :
  Encrypt hello (repeat x00 16) zeroSource
  = (Returns (EmptyString, Some (errors_New "key must be 32 bytes for AES-256")),
     zeroSource)
  /\ Decrypt "AAAAAAAAAAAAAAAApsIsUSKLkI9/Yv/Opqkvq+85v02T" (repeat x00 16)
     = Returns ([], Some (errors_New "key must be 32 bytes for AES-256"))
  /\ kind (errors_New "key must be 32 bytes for AES-256") = Some InvalidKeyLength.
Proof.
  apply (key_length_enforced hello (repeat x00 16)
           "AAAAAAAAAAAAAAAApsIsUSKLkI9/Yv/Opqkvq+85v02T" zeroSource).
  cbn [repeat length]. lia.
Defined.

(** *** Malformed envelopes *)

(** C4. Under a 32-byte key, an envelope that is not standard padded
    base64 (CR and LF apart) is rejected by the decoder, an envelope the
    decoder rejects makes [Decrypt] return the decode error, and an
    envelope that decodes to fewer than twelve bytes makes it return
    "ciphertext too short"; both are malformed-envelope errors.  Both
    results hold for every implementation of the cipher constructors,
    whatever its [Open] does: [Open] is not consulted. *)
Theorem malformed_envelope_rejected :
  forall (lib : Crypto) (envelope : string) (key : bytes),
    length key = 32%nat ->
    (base64.wellPadded (base64.significant (list_byte_of_string envelope))
     = false ->
     exists data offset,
       base64.DecodeString envelope = (data, Some (CorruptInputError offset))
       /\ @Decrypt lib envelope key
          = Returns ([], Some (fmt_Errorf "base64 decode failed: %w"
                                 (CorruptInputError offset))))
    /\ (forall data err,
        base64.DecodeString envelope = (data, Some err) ->
        @Decrypt lib envelope key
        = Returns ([], Some (fmt_Errorf "base64 decode failed: %w" err))
        /\ kind (fmt_Errorf "base64 decode failed: %w" err)
           = Some MalformedEnvelope)
    /\ (forall data block gcm,
           base64.DecodeString envelope = (data, None) ->
           len data < 12 ->
           aes_NewCipher key = Ok block ->
           cipher_NewGCM block = Ok gcm ->
           cipher.NonceSize gcm = 12 ->
           @Decrypt lib envelope key
           = Returns ([], Some (errors_New "ciphertext too short"))
           /\ kind (errors_New "ciphertext too short") = Some MalformedEnvelope).
Proof.
  intros lib envelope key Hk. unfold Decrypt. rewrite (len_32 key Hk).
  cbn [Z.eqb Pos.eqb negb]. split; [|split].
  - intros H.
    destruct (base64_facts.DecodeString_rejects envelope) as (data & off & E);
      [tauto|].
    exists data, off. rewrite E. split; reflexivity.
  - intros data err ->. split; reflexivity.
  - intros data block gcm -> Hshort -> -> ->.
    destruct (Z.ltb_spec (len data) 12); [split; reflexivity | lia].
Qed.

Lemma malformed_envelope_rejected_examples :
  (exists data offset,
      base64.DecodeString "not base64!" = (data, Some (CorruptInputError offset))
      /\ @Decrypt go_crypto "not base64!" zeroKey
         = Returns ([], Some (fmt_Errorf "base64 decode failed: %w"
                                (CorruptInputError offset))))
  /\ (@Decrypt go_crypto "not base64!" zeroKey
      = Returns ([], Some (fmt_Errorf "base64 decode failed: %w"
                             (CorruptInputError 3)))
      /\ kind (fmt_Errorf "base64 decode failed: %w" (CorruptInputError 3))
         = Some MalformedEnvelope)
  /\ (@Decrypt go_crypto "AAAAAAAAAAAAAAA=" zeroKey
      = Returns ([], Some (errors_New "ciphertext too short"))
      /\ kind (errors_New "ciphertext too short") = Some MalformedEnvelope).
Proof.
  destruct (malformed_envelope_rejected go_crypto "not base64!" zeroKey eq_refl)
    as (H0 & H1 & _).
  destruct (malformed_envelope_rejected go_crypto "AAAAAAAAAAAAAAA=" zeroKey eq_refl)
    as (_ & _ & H2).
  split; [|split].
  - apply H0. vm_compute. reflexivity.
  - apply (H1 [] (CorruptInputError 3)). vm_compute. reflexivity.
  - apply (H2 (repeat x00 11) (aesBlock zeroKey)
              {| cipher.NonceSize := 12; cipher.Overhead := 16;
                 cipher.Seal := cipher.gcmSeal (aesBlock zeroKey);
                 cipher.Open := cipher.gcmOpen (aesBlock zeroKey) |}).
    + vm_compute. reflexivity.
    + vm_compute. reflexivity.
    + reflexivity.
    + reflexivity.
    + reflexivity.
Defined.

(** C5. [Decrypt] decodes with the standard alphabet and padding only: an
    envelope containing ['-'] or ['_'], or one whose characters (CR and
    LF apart, which the decoder skips) are not a multiple of four, as when
    the padding is missing, or are in any other way not groups of four
    digits with at most two final ['='], is rejected; under a 32-byte key
    the error is the base64 decode error. *)
Theorem nonstandard_base64_rejected :
  forall (envelope : string) (key : bytes),
    In ("-"%byte) (list_byte_of_string envelope)
    \/ In ("_"%byte) (list_byte_of_string envelope)
    \/ (length (base64.significant (list_byte_of_string envelope)) mod 4
        <> 0)%nat
    \/ base64.wellPadded (base64.significant (list_byte_of_string envelope))
       = false ->
    (exists err, Decrypt envelope key = Returns ([], Some err))
    /\ (length key = 32%nat ->
        exists offset,
          Decrypt envelope key
          = Returns ([], Some (fmt_Errorf "base64 decode failed: %w"
                                 (CorruptInputError offset)))
          /\ kind (fmt_Errorf "base64 decode failed: %w" (CorruptInputError offset))
             = Some MalformedEnvelope).
Proof.
  intros envelope key H.
  destruct (base64_facts.DecodeString_rejects envelope H)
    as (data & offset & Hdec).
  assert (H32 : length key = 32%nat ->
                Decrypt envelope key
                = Returns ([], Some (fmt_Errorf "base64 decode failed: %w"
                                       (CorruptInputError offset)))).
  { intros Hk. rewrite (Decrypt_32 _ _ Hk), Hdec. reflexivity. }
  split.
  - destruct (Nat.eq_dec (length key) 32) as [Hk|Hk].
    + eexists. apply H32, Hk.
    + eexists. apply (wrong_key_length [] key envelope zeroSource Hk).
  - intros Hk. exists offset. split; [apply H32, Hk | reflexivity].
Qed.

Lemma nonstandard_base64_rejected_examples :
  (exists offset,
      Decrypt "AAAAAAAAAAAAAAAApsIsUSKLkI9_Yv_Opqkvq-85v02T" zeroKey
      = Returns ([], Some (fmt_Errorf "base64 decode failed: %w"
                             (CorruptInputError offset)))
      /\ kind (fmt_Errorf "base64 decode failed: %w" (CorruptInputError offset))
         = Some MalformedEnvelope)
  /\ (exists offset,
         Decrypt "AAAAAAAAAAAAAAAApsIsUSKLkI9/Yv/Opqkvq+85v02TAA" zeroKey
         = Returns ([], Some (fmt_Errorf "base64 decode failed: %w"
                                (CorruptInputError offset)))
         /\ kind (fmt_Errorf "base64 decode failed: %w" (CorruptInputError offset))
            = Some MalformedEnvelope).
Proof.
  split.
  - apply (nonstandard_base64_rejected
             "AAAAAAAAAAAAAAAApsIsUSKLkI9_Yv_Opqkvq-85v02T" zeroKey).
    + left. vm_compute. tauto.
    + reflexivity.
  - apply (nonstandard_base64_rejected
             "AAAAAAAAAAAAAAAApsIsUSKLkI9/Yv/Opqkvq+85v02TAA" zeroKey).
    + right. right. left. vm_compute. discriminate.
    + reflexivity.
Defined.

(** *** The envelope *)

(** C6. An envelope returned by [Encrypt] for a plaintext of [L] bytes
    decodes to exactly [12 + L + 16] bytes and is
    [ceil((12 + L + 16) / 3) * 4] characters long, 44 characters for
    ["hello"]. *)
Theorem envelope_length :
  forall (plaintext key : bytes) (rd rd' : Reader) (envelope : string),
    length key = 32%nat ->
    Encrypt plaintext key rd = (Returns (envelope, None), rd') ->
    (exists data,
        base64.DecodeString envelope = (data, None)
        /\ len data = 12 + len plaintext + 16)
    /\ Z.of_nat (String.length envelope)
       = ceilDiv (12 + len plaintext + 16) 3 * 4
    /\ (plaintext = list_byte_of_string "hello" ->
        String.length envelope = 44%nat).
Proof.
  intros plaintext key rd rd' envelope Hk H.
  apply Encrypt_returns in H.
  destruct H as (_ & nonce & sealed & _ & Hn & Hseal & ->).
  pose proof (gcm_facts.gcmSeal_length _ _ _ _ _ Hseal) as Hlen.
  assert (Hdata : len (nonce ++ sealed) = 12 + len plaintext + 16).
  { rewrite len_app, Hlen. unfold len. lia. }
  assert (Hchars : Z.of_nat (String.length (base64.EncodeToString (nonce ++ sealed)))
                   = ceilDiv (12 + len plaintext + 16) 3 * 4).
  { rewrite base64_facts.length_EncodeToString, Hdata. unfold ceilDiv.
    replace (12 + len plaintext + 16 + 3 - 1) with (12 + len plaintext + 16 + 2)
      by lia.
    lia. }
  split; [|split].
  - exists (nonce ++ sealed). split; [|exact Hdata].
    apply base64_facts.DecodeString_EncodeToString.
  - exact Hchars.
  - intros ->. apply Nat2Z.inj. rewrite Hchars. reflexivity.
Qed.

Lemma envelope_length_hello :
  (exists data,
      base64.DecodeString "AAAAAAAAAAAAAAAApsIsUSKLkI9/Yv/Opqkvq+85v02T"
      = (data, None)
      /\ len data = 12 + len hello + 16)
  /\ Z.of_nat (String.length "AAAAAAAAAAAAAAAApsIsUSKLkI9/Yv/Opqkvq+85v02T")
     = ceilDiv (12 + len hello + 16) 3 * 4
  /\ (hello = list_byte_of_string "hello" ->
      String.length "AAAAAAAAAAAAAAAApsIsUSKLkI9/Yv/Opqkvq+85v02T" = 44%nat).
Proof.
  apply (envelope_length hello zeroKey zeroSource
           {| pending := repeat x00 52; failure := EOF |}).
  - reflexivity.
  - vm_compute. reflexivity.
Defined.

(** *** Nonces *)

(** C7. Two successive calls of [Encrypt] with the same key and plaintext:
    the second draws its nonce from the source where the first left it,
    and the two envelopes differ whenever (indeed exactly when) the two
    nonces drawn differ. *)
Theorem distinct_nonces_distinct_envelopes :
  forall (plaintext key : bytes) (rd rd1 rd2 : Reader) (env1 env2 : string),
    Encrypt plaintext key rd = (Returns (env1, None), rd1) ->
    Encrypt plaintext key rd1 = (Returns (env2, None), rd2) ->
    pending rd1 = skipn 12 (pending rd)
    /\ (nonceDrawn rd <> nonceDrawn rd1 <-> env1 <> env2).
Proof.
  intros plaintext key rd rd1 rd2 env1 env2 H1 H2.
  apply Encrypt_returns in H1, H2.
  destruct H1 as (_ & n1 & s1 & Hr1 & Hn1 & Hs1 & ->).
  destruct H2 as (_ & n2 & s2 & Hr2 & Hn2 & Hs2 & ->).
  unfold nonceDrawn. rewrite Hr1, Hr2. cbn [fst].
  split; [apply io_ReadFull_ok in Hr1; tauto|].
  split.
  - intros Hne E. apply base64_facts.EncodeToString_inj in E.
    apply Hne. rewrite <- (proj1 (split_nonce n1 s1 Hn1)), E.
    apply (split_nonce n2 s2 Hn2).
  - intros Hne E. subst n2. apply Hne. congruence.
Qed.

Lemma distinct_nonces_distinct_envelopes_hello :
  pending {| pending := repeat x01 12; failure := EOF |}
  = skipn 12 (pending twoNonceSource)
  /\ (nonceDrawn twoNonceSource
      <> nonceDrawn {| pending := repeat x01 12; failure := EOF |}
      <-> "AAAAAAAAAAAAAAAApsIsUSKLkI9/Yv/Opqkvq+85v02T"%string
          <> "AQEBAQEBAQEBAQEBHSWvBhWZ2575cLErxbJB5f4lYpzV"%string).
Proof.
  apply (distinct_nonces_distinct_envelopes hello zeroKey twoNonceSource
           {| pending := repeat x01 12; failure := EOF |}
           {| pending := []; failure := EOF |}).
  - vm_compute. reflexivity.
  - vm_compute. reflexivity.
Defined.

(** *** Key generation *)

(** C8. [GenerateKey] either returns exactly the next 32 bytes of the
    random source, with no error, or, when the source cannot supply 32
    bytes, no key at all and an error wrapping that of the source; there
    is no third outcome. *)
Theorem GenerateKey_spec :
  forall rd : Reader,
    (exists key rd',
        GenerateKey rd = ((key, None), rd')
        /\ length key = 32%nat
        /\ key = firstn 32 (pending rd)
        /\ pending rd' = skipn 32 (pending rd))
    \/ (exists err rd',
           GenerateKey rd
           = (([], Some (fmt_Errorf "key generation failed: %w" err)), rd')
           /\ snd (fst (io_ReadFull rd 32)) = Some err
           /\ (length (pending rd) < 32)%nat
           /\ kind (fmt_Errorf "key generation failed: %w" err)
              = Some RandomnessUnavailable).
Proof.
  intros rd. unfold GenerateKey.
  destruct (io_ReadFull rd 32) as [[key [err|]] rd'] eqn:E.
  - right. exists err, rd'. apply io_ReadFull_error in E. auto.
  - left. exists key, rd'. apply io_ReadFull_ok in E. tauto.
Qed.

(** *** Unreachable error branches *)

(** [Encrypt] under a 32-byte key panics only in [Seal], on a plaintext
    longer than one GCM call allows. *)
Lemma Encrypt_panics (plaintext key : bytes) (rd rd' : Reader) (msg : string) :
  length key = 32%nat ->
  Encrypt plaintext key rd = (Panics msg, rd') ->
  cipher.gcmMaxPlaintext < len plaintext.
Proof.
  intros Hk H. rewrite (Encrypt_32 _ _ _ Hk) in H.
  destruct (io_ReadFull rd 12) as [[nonce [e|]] rd1] eqn:Hread; [discriminate|].
  apply io_ReadFull_ok in Hread. destruct Hread as (Hn & _).
  destruct (Z.le_gt_cases (len plaintext) cipher.gcmMaxPlaintext) as [Hle|Hgt];
    [|lia].
  destruct (gcm_facts.gcmSeal_succeeds (aesBlock key) [] nonce plaintext [])
    as [out Hout]; trivial.
  { unfold len. rewrite Hn. reflexivity. }
  rewrite Hout in H. discriminate.
Qed.



(** What [Encrypt] does with a plaintext that one GCM call cannot take,
    once it has a nonce: [Seal] panics. *)
Lemma Encrypt_too_large (plaintext key : bytes) (rd : Reader) :
  length key = 32%nat ->
  (12 <= length (pending rd))%nat ->
  cipher.gcmMaxPlaintext < len plaintext ->
  Encrypt plaintext key rd
  = (Panics "crypto/cipher: message too large for GCM",
     {| pending := skipn 12 (pending rd); failure := failure rd |}).
Proof.
  intros Hk Hrd Hp. rewrite (Encrypt_32 _ _ _ Hk). unfold io_ReadFull.
  destruct (Nat.leb_spec 12 (length (pending rd))) as [_|]; [|lia].
  unfold cipher.gcmSeal, cipher.gcmStandardNonceSize.
  assert (Hn : len (firstn 12 (pending rd)) = 12)
    by (unfold len; rewrite length_firstn; lia).
  rewrite Hn. cbn [Z.eqb Pos.eqb negb].
  destruct (Z.ltb_spec cipher.gcmMaxPlaintext (len plaintext)); [|lia].
  reflexivity.
Qed.

(** C9, counterexample to "[Encrypt] fails only when the random source
    does": under the 32-byte key [zeroKey] and a random source that
    delivers the twelve bytes asked of it, [Encrypt] of a plaintext of
    [gcmMaxPlaintext + 1] bytes does not return an envelope, it panics in
    [Seal]. *)
Lemma Encrypt_fails_without_source_failure :
  length zeroKey = 32%nat
  /\ snd (fst (io_ReadFull zeroSource 12)) = None
  /\ Encrypt (repeat x00 (Z.to_nat (cipher.gcmMaxPlaintext + 1)))
             zeroKey zeroSource
     = (Panics "crypto/cipher: message too large for GCM",
        {| pending := skipn 12 (pending zeroSource);
           failure := failure zeroSource |}).
Proof.
  split; [reflexivity|]. split; [reflexivity|].
  apply Encrypt_too_large.
  - reflexivity.
  - cbn. lia.
  - unfold len. rewrite repeat_length, Z2Nat.id.
    + lia.
    + unfold cipher.gcmMaxPlaintext. lia.
Qed.

(** C9.  Under a 32-byte key [aes.NewCipher] and
    [cipher.NewGCM] succeed, so the two construction error branches are
    dead.  [Encrypt] then has three outcomes and no other: when the random
    source fails, the empty string and the error of the source, wrapped;
    when it delivers a nonce and the plaintext is within
    [gcmMaxPlaintext], an envelope; when it delivers a nonce and the
    plaintext is longer, the panic of [Seal].  [Decrypt] returns either a
    plaintext or one of the decode error, "ciphertext too short" and the
    authentication error; it never panics. *)
Theorem cipher_setup_never_fails :
  forall key : bytes,
    length key = 32%nat ->
    (exists block gcm,
        aes.NewCipher key = Ok block /\ cipher.NewGCM block = Ok gcm)
    /\ (forall plaintext rd,
           (exists buf cause rd',
               io_ReadFull rd 12 = ((buf, Some cause), rd')
               /\ Encrypt plaintext key rd
                  = (Returns (EmptyString,
                              Some (fmt_Errorf "nonce generation failed: %w"
                                      cause)),
                     rd'))
           \/ (exists nonce rd' envelope,
                  io_ReadFull rd 12 = ((nonce, None), rd')
                  /\ len plaintext <= cipher.gcmMaxPlaintext
                  /\ Encrypt plaintext key rd = (Returns (envelope, None), rd'))
           \/ (exists nonce rd',
                  io_ReadFull rd 12 = ((nonce, None), rd')
                  /\ cipher.gcmMaxPlaintext < len plaintext
                  /\ Encrypt plaintext key rd
                     = (Panics "crypto/cipher: message too large for GCM",
                        rd')))
    /\ (forall envelope,
           (exists plaintext, Decrypt envelope key = Returns (plaintext, None))
           \/ (exists data cause,
                  base64.DecodeString envelope = (data, Some cause)
                  /\ Decrypt envelope key
                     = Returns ([], Some (fmt_Errorf "base64 decode failed: %w" cause)))
           \/ (exists data,
                  base64.DecodeString envelope = (data, None)
                  /\ len data < 12
                  /\ Decrypt envelope key
                     = Returns ([], Some (errors_New "ciphertext too short")))
           \/ Decrypt envelope key
              = Returns ([], Some (fmt_Errorf "decryption failed: %w" errOpen))).
Proof.
  intros key Hk. split; [|split].
  - eexists _, _. rewrite (NewCipher_32 key Hk). split; reflexivity.
  - intros plaintext rd.
    destruct (io_ReadFull rd 12) as [[nonce [cause|]] rd1] eqn:Hread.
    + left. exists nonce, cause, rd1. split; [reflexivity|].
      rewrite (Encrypt_32 _ _ _ Hk), Hread. reflexivity.
    + right. pose proof (io_ReadFull_ok _ _ _ _ Hread) as (Hn & _ & _ & Hle).
      assert (Hrd1 : rd1 = {| pending := skipn 12 (pending rd);
                              failure := failure rd |}).
      { unfold io_ReadFull in Hread.
        destruct (Nat.leb_spec 12 (length (pending rd))); [|lia].
        congruence. }
      destruct (Z.le_gt_cases (len plaintext) cipher.gcmMaxPlaintext)
        as [Hp|Hp].
      * left. rewrite (Encrypt_32 _ _ _ Hk), Hread.
        destruct (gcm_facts.gcmSeal_succeeds (aesBlock key) [] nonce
                    plaintext []) as [out Hout]; trivial.
        { unfold len. rewrite Hn. reflexivity. }
        rewrite Hout. eauto 10.
      * right. exists nonce, rd1. split; [reflexivity|]. split; [lia|].
        rewrite Hrd1. apply Encrypt_too_large; trivial.
  - intros envelope. rewrite (Decrypt_32 _ _ Hk).
    destruct (base64.DecodeString envelope) as [data [cause|]] eqn:Hdec.
    { right. left. eauto. }
    destruct (Z.ltb_spec (len data) 12) as [Hshort|Hlong].
    { right. right. left. eauto. }
    assert (Hn : len (firstn 12 data) = 12).
    { unfold len in *. rewrite length_firstn. lia. }
    destruct (gcm_facts.gcmOpen_outcome (aesBlock key)
                (firstn 12 data) (skipn 12 data) [] Hn) as [-> | [p ->]].
    + right. right. right. reflexivity.
    + left. eauto.
Qed.

Lemma cipher_setup_never_fails_zeroKey :
  exists block gcm,
    aes.NewCipher zeroKey = Ok block /\ cipher.NewGCM block = Ok gcm.
Proof.
  apply (cipher_setup_never_fails zeroKey). reflexivity.
Defined.

(** *** Envelopes with a nonce but no room for a tag *)

(** C10. Under a 32-byte key, an envelope that decodes to at least 12 but
    fewer than 28 bytes passes the "ciphertext too short" check and is
    rejected by [Open]: [Decrypt] returns the authentication error, not a
    malformed-envelope error. *)
Theorem short_ciphertext_fails_at_open :
  forall (envelope : string) (key data : bytes),
    length key = 32%nat ->
    base64.DecodeString envelope = (data, None) ->
    12 <= len data < 28 ->
    cipher.gcmOpen (aesBlock key) [] (firstn 12 data) (skipn 12 data) []
    = Returns ([], Some errOpen)
    /\ Decrypt envelope key
       = Returns ([], Some (fmt_Errorf "decryption failed: %w" errOpen))
    /\ kind (fmt_Errorf "decryption failed: %w" errOpen)
       = Some AuthenticationFailed.
Proof.
  intros envelope key data Hk Hdec Hlen.
  assert (Hopen : cipher.gcmOpen (aesBlock key) [] (firstn 12 data)
                    (skipn 12 data) [] = Returns ([], Some errOpen)).
  { apply gcm_facts.gcmOpen_short; unfold len in *.
    - rewrite length_firstn. lia.
    - rewrite length_skipn. lia. }
  split; [exact Hopen|]. split; [|reflexivity].
  rewrite (Decrypt_32 _ _ Hk), Hdec.
  destruct (Z.ltb_spec (len data) 12); [lia|].
  rewrite Hopen. reflexivity.
Qed.

Lemma short_ciphertext_fails_at_open_example :
  cipher.gcmOpen (aesBlock zeroKey) [] (firstn 12 (repeat x00 27))
    (skipn 12 (repeat x00 27)) []
  = Returns ([], Some errOpen)
  /\ Decrypt "AAAAAAAAAAAAAAAAAAAAAAAAAAAAAAAAAAAA" zeroKey
     = Returns ([], Some (fmt_Errorf "decryption failed: %w" errOpen))
  /\ kind (fmt_Errorf "decryption failed: %w" errOpen)
     = Some AuthenticationFailed.
Proof.
  apply (short_ciphertext_fails_at_open
           "AAAAAAAAAAAAAAAAAAAAAAAAAAAAAAAAAAAA" zeroKey (repeat x00 27)).
  - reflexivity.
  - vm_compute. reflexivity.
  - vm_compute. split; [discriminate | reflexivity].
Defined.

(** *** Tampering *)

Lemma flipped_byte_differs (b : byte) (j : nat) :
  (j < 8)%nat ->
  byte_of_Z (Z.lxor (byte_to_Z b) (Z.shiftl 1 (Z.of_nat j))) <> b.
Proof.
  intros Hj E. apply (f_equal byte_to_Z) in E.
  assert (Hm : 0 < Z.shiftl 1 (Z.of_nat j) < 256).
  { rewrite Z.shiftl_1_l. split; [apply Z.pow_pos_nonneg; lia|].
    change 256 with (2 ^ 8). apply Z.pow_lt_mono_r; lia. }
  rewrite byte_to_of_Z in E
    by (apply gcm_facts.lxor_byte_range; [apply byte_to_Z_range | lia]).
  apply (f_equal (Z.lxor (byte_to_Z b))) in E.
  rewrite <- Z.lxor_assoc, Z.lxor_nilpotent, Z.lxor_0_l in E. lia.
Qed.

Lemma flipBit_app (pre l : bytes) (j : nat) :
  flipBit (pre ++ l) (8 * length pre + j) = pre ++ flipBit l j.
Proof.
  unfold flipBit.
  replace ((8 * length pre + j) / 8)%nat with (length pre + j / 8)%nat
    by (rewrite (Nat.mul_comm 8), Nat.div_add_l; lia).
  replace ((8 * length pre + j) mod 8)%nat with (j mod 8)%nat
    by (rewrite Nat.add_comm, (Nat.mul_comm 8), Nat.Div0.mod_add; reflexivity).
  rewrite firstn_app_2, skipn_app, skipn_all2 by lia.
  replace (length pre + j / 8 - length pre)%nat with (j / 8)%nat by lia.
  cbn [app]. rewrite <- app_assoc. reflexivity.
Qed.

Lemma flipBit_differs (l : bytes) (j : nat) :
  (j < 8 * length l)%nat -> flipBit l j <> l.
Proof.
  intros Hj. unfold flipBit.
  assert (Hq : (j / 8 < length l)%nat)
    by (apply Nat.Div0.div_lt_upper_bound; lia).
  destruct (skipn (j / 8) l) as [|b rest] eqn:E.
  - apply (f_equal (@length byte)) in E. rewrite length_skipn in E.
    cbn [length] in E. lia.
  - intros H. rewrite <- (firstn_skipn (j / 8) l) in H at 2.
    rewrite E in H. apply app_inv_head in H. injection H as H.
    apply (flipped_byte_differs b (j mod 8)); [|exact H].
    apply Nat.mod_upper_bound. lia.
Qed.

Lemma length_flipBit (l : bytes) (j : nat) : length (flipBit l j) = length l.
Proof.
  unfold flipBit. rewrite <- (firstn_skipn (j / 8) l) at 3.
  rewrite !length_app. f_equal. destruct (skipn (j / 8) l); reflexivity.
Qed.

(** [Open] rejects a message whose last sixteen bytes are not the tag of
    the rest. *)
Lemma gcmOpen_wrong_tag (b : cipher.Block) (nonce body tag data : bytes) :
  len nonce = 12 -> length tag = 16%nat ->
  tag <> cipher.auth b body data (cipher.encryptZ b (cipher.deriveCounter nonce)) ->
  cipher.gcmOpen b [] nonce (body ++ tag) data = Returns ([], Some errOpen).
Proof.
  intros Hn Ht Hne. unfold cipher.gcmOpen, cipher.gcmStandardNonceSize.
  rewrite Hn. cbn [Z.eqb Pos.eqb negb].
  destruct (len (body ++ tag) <? cipher.gcmTagSize); [reflexivity|].
  destruct (cipher.gcmMaxPlaintext + cipher.gcmTagSize <? len (body ++ tag));
    [reflexivity|].
  rewrite length_app, Ht.
  replace (length body + 16 - 16)%nat with (length body) by lia.
  rewrite skipn_app, skipn_all, Nat.sub_diag, firstn_app, firstn_all,
    Nat.sub_diag. cbn [skipn firstn app]. rewrite app_nil_r.
  match goal with
  | |- context [cipher.ConstantTimeCompare ?x ?y] =>
      destruct (cipher.ConstantTimeCompare x y) eqn:E
  end; [|reflexivity].
  apply gcm_facts.ConstantTimeCompare_eq in E. congruence.
Qed.

(** Whatever the implementation of the ciphers, an error of [Decrypt]
    comes without plaintext. *)
Lemma Decrypt_error_without_plaintext (lib : Crypto) (envelope : string)
  (key plaintext : bytes) (err : error) :
  @Decrypt lib envelope key = Returns (plaintext, Some err) -> plaintext = [].
Proof.
  unfold Decrypt. destruct (negb (len key =? 32)); [congruence|].
  destruct (base64.DecodeString envelope) as [data [e|]]; [congruence|].
  destruct (aes_NewCipher key) as [block|e]; [|congruence].
  destruct (cipher_NewGCM block) as [gcm|e]; [|congruence].
  destruct (len data <? cipher.NonceSize gcm); [congruence|].
  destruct (cipher.NonceSize gcm <? 0); [congruence|].
  destruct (cipher.Open gcm [] _ _ []) as [[p [e|]]|m]; congruence.
Qed.

(** [Decrypt] rejects every envelope whose tag does not verify: the
    last sixteen bytes must be the tag of what lies between them and the
    nonce. *)
Lemma Decrypt_rejects_unverified_tag (key nonce body tag : bytes) :
  length key = 32%nat -> length nonce = 12%nat -> length tag = 16%nat ->
  tag <> cipher.auth (aesBlock key) body []
           (cipher.encryptZ (aesBlock key) (cipher.deriveCounter nonce)) ->
  Decrypt (base64.EncodeToString (nonce ++ body ++ tag)) key
  = Returns ([], Some (fmt_Errorf "decryption failed: %w" errOpen)).
Proof.
  intros Hk Hn Ht Hne.
  rewrite (Decrypt_32 _ _ Hk), base64_facts.DecodeString_EncodeToString.
  destruct (Z.ltb_spec (len (nonce ++ body ++ tag)) 12) as [Hs|Hs].
  { rewrite len_app in Hs. pose proof (len_nonneg (body ++ tag)).
    unfold len in *. lia. }
  destruct (split_nonce nonce (body ++ tag) Hn) as [-> ->].
  rewrite gcmOpen_wrong_tag; trivial.
  unfold len. rewrite Hn. reflexivity.
Qed.

(** A bit flipped in the tag of an envelope is always detected. *)
Lemma tag_tampering_detected (plaintext key data : bytes) (rd rd' : Reader)
  (envelope : string) (i : nat) :
  length key = 32%nat ->
  Encrypt plaintext key rd = (Returns (envelope, None), rd') ->
  base64.DecodeString envelope = (data, None) ->
  (8 * (12 + length plaintext) <= i < 8 * length data)%nat ->
  Decrypt (base64.EncodeToString (flipBit data i)) key
  = Returns ([], Some (fmt_Errorf "decryption failed: %w" errOpen)).
Proof.
  intros Hk H Hdec Hi. apply Encrypt_returns in H.
  destruct H as (_ & nonce & sealed & _ & Hn & Hseal & ->).
  rewrite base64_facts.DecodeString_EncodeToString in Hdec.
  injection Hdec as <-.
  apply gcm_facts.gcmSeal_returns in Hseal.
  destruct Hseal as (Hnl & _ & ->). cbv zeta in *. cbn [app] in *.
  set (counter := cipher.deriveCounter nonce) in *.
  set (body := cipher.counterCrypt (aesBlock key) plaintext
                 (cipher.gcmInc32 counter)) in *.
  set (tag := cipher.auth (aesBlock key) body []
                (cipher.encryptZ (aesBlock key) counter)) in *.
  assert (Hbody : length body = length plaintext)
    by apply gcm_facts.length_counterCrypt.
  assert (Htag : length tag = 16%nat) by apply gcm_facts.length_auth.
  rewrite !length_app, Hn, Hbody, Htag in Hi.
  rewrite app_assoc.
  replace i with (8 * length (nonce ++ body) + (i - 8 * (12 + length plaintext)))%nat
    by (rewrite length_app, Hn, Hbody; lia).
  rewrite flipBit_app, <- app_assoc.
  apply Decrypt_rejects_unverified_tag; trivial.
  - rewrite length_flipBit. exact Htag.
  - fold counter. fold tag. apply flipBit_differs. lia.
Qed.

(** *** Why the hash key matters *)

Lemma mulLoop_0 (n : nat) (x : Z) : cipher.mulLoop n x 0 0 = 0.
Proof.
  induction n as [|n IH]; [reflexivity|].
  cbn [cipher.mulLoop]. cbn [Z.testbit Z.shiftr Z.shiftl Z.lxor Z.opp].
  destruct (Z.testbit x (Z.of_nat n)); exact IH.
Qed.

(** With a zero hash key the tag is the encrypted counter block alone: it
    does not depend on the ciphertext. *)
Lemma auth_zero_hash_key (b : cipher.Block) (ciphertext data : bytes) (tagMask : Z) :
  cipher.hashKey b = 0 ->
  cipher.auth b ciphertext data tagMask = be_bytes 16 tagMask.
Proof.
  intros H. unfold cipher.auth. rewrite H. unfold cipher.gcmMul.
  rewrite mulLoop_0. reflexivity.
Qed.

(** So [Open] under a block cipher with a zero hash key accepts any
    ciphertext of the same length in place of the sealed one, and returns
    a different plaintext for it. *)
Lemma gcmOpen_zero_hash_key (b : cipher.Block) (nonce plaintext body' sealed : bytes) :
  cipher.hashKey b = 0 ->
  cipher.gcmSeal b [] nonce plaintext [] = Returns sealed ->
  length body' = length plaintext ->
  body' <> firstn (length plaintext) sealed ->
  exists altered,
    altered <> plaintext
    /\ cipher.gcmOpen b [] nonce (body' ++ skipn (length plaintext) sealed) []
       = Returns (altered, None).
Proof.
  intros H Hseal Hlen Hne.
  apply gcm_facts.gcmSeal_returns in Hseal.
  destruct Hseal as (Hn & Hp & ->). cbv zeta in *. cbn [app] in *.
  set (counter := cipher.deriveCounter nonce) in *.
  set (body := cipher.counterCrypt b plaintext (cipher.gcmInc32 counter)) in *.
  assert (Hbody : length body = length plaintext)
    by apply gcm_facts.length_counterCrypt.
  rewrite auth_zero_hash_key in * by exact H.
  set (tag := be_bytes 16 (cipher.encryptZ b counter)) in *.
  assert (Hf : firstn (length plaintext) (body ++ tag) = body).
  { rewrite <- Hbody, firstn_app, firstn_all, Nat.sub_diag, firstn_O.
    apply app_nil_r. }
  assert (Hs : skipn (length plaintext) (body ++ tag) = tag).
  { rewrite <- Hbody, skipn_app, skipn_all, Nat.sub_diag. reflexivity. }
  rewrite Hf in Hne. rewrite Hs. subst tag.
  exists (cipher.counterCrypt b body' (cipher.gcmInc32 counter)). split.
  - intros E. apply Hne.
    rewrite <- (gcm_facts.counterCrypt_involutive b body' (cipher.gcmInc32 counter)).
    rewrite E. reflexivity.
  - unfold cipher.gcmOpen, cipher.gcmStandardNonceSize, cipher.gcmTagSize.
    rewrite Hn. cbn [Z.eqb Pos.eqb negb].
    assert (Hl : len (body' ++ be_bytes 16 (cipher.encryptZ b counter))
                 = len plaintext + 16).
    { unfold len. rewrite length_app, Hlen, gcm_facts.length_be_bytes. lia. }
    rewrite !Hl. pose proof (len_nonneg plaintext).
    destruct (Z.ltb_spec (len plaintext + 16) 16); [lia|].
    destruct (Z.ltb_spec (cipher.gcmMaxPlaintext + 16) (len plaintext + 16));
      [lia|].
    rewrite length_app, gcm_facts.length_be_bytes.
    replace (length body' + 16 - 16)%nat with (length body') by lia.
    rewrite skipn_app, skipn_all, Nat.sub_diag, firstn_app, firstn_all,
      Nat.sub_diag. cbn [skipn firstn app]. rewrite app_nil_r.
    fold counter. rewrite auth_zero_hash_key by exact H.
    assert (Htag : cipher.ConstantTimeCompare
                     (be_bytes 16 (cipher.encryptZ b counter))
                     (be_bytes 16 (cipher.encryptZ b counter)) = true)
      by (apply gcm_facts.ConstantTimeCompare_eq; reflexivity).
    rewrite Htag. reflexivity.
Qed.

(** For [Decrypt]: were there a 32-byte key whose hash key
    [AES_k(0^128)] is zero, a bit flipped in the ciphertext of one of its
    envelopes would go undetected and an altered plaintext would be
    returned. *)
Lemma ciphertext_tampering_needs_hash_key (plaintext key data : bytes)
  (rd rd' : Reader) (envelope : string) (i : nat) :
  length key = 32%nat ->
  cipher.hashKey (aesBlock key) = 0 ->
  Encrypt plaintext key rd = (Returns (envelope, None), rd') ->
  base64.DecodeString envelope = (data, None) ->
  (8 * 12 <= i < 8 * (12 + length plaintext))%nat ->
  exists altered,
    altered <> plaintext
    /\ Decrypt (base64.EncodeToString (flipBit data i)) key
       = Returns (altered, None).
Proof.
  intros Hk H0 H Hdec Hi. apply Encrypt_returns in H.
  destruct H as (_ & nonce & sealed & _ & Hn & Hseal & ->).
  rewrite base64_facts.DecodeString_EncodeToString in Hdec.
  injection Hdec as <-.
  pose proof (gcm_facts.gcmSeal_length _ _ _ _ _ Hseal) as Hlen.
  assert (Hsl : length sealed = (length plaintext + 16)%nat)
    by (unfold len in Hlen; lia).
  set (body := firstn (length plaintext) sealed).
  set (tag := skipn (length plaintext) sealed).
  assert (Hst : sealed = body ++ tag) by (symmetry; apply firstn_skipn).
  rewrite Hst.
  assert (Hbl : length body = length plaintext)
    by (subst body; rewrite length_firstn; lia).
  replace i with (8 * length nonce + (i - 96))%nat by lia.
  rewrite flipBit_app.
  assert (Hflip : flipBit (body ++ tag) (i - 96) = flipBit body (i - 96) ++ tag).
  { unfold flipBit.
    assert (Hq : ((i - 96) / 8 < length body)%nat)
      by (apply Nat.Div0.div_lt_upper_bound; lia).
    rewrite firstn_app, skipn_app.
    replace ((i - 96) / 8 - length body)%nat with 0%nat by lia.
    cbn [firstn skipn]. rewrite app_nil_r.
    destruct (skipn ((i - 96) / 8) body) as [|x r] eqn:E.
    - apply (f_equal (@length byte)) in E. rewrite length_skipn in E.
      cbn [length] in E. lia.
    - cbn [app]. rewrite <- app_assoc. reflexivity. }
  rewrite Hflip.
  destruct (gcmOpen_zero_hash_key (aesBlock key) nonce plaintext
              (flipBit body (i - 96)) sealed H0 Hseal) as (altered & Hne & Hopen).
  { rewrite length_flipBit. exact Hbl. }
  { apply flipBit_differs. fold body. lia. }
  exists altered. split; [exact Hne|].
  rewrite (Decrypt_32 _ _ Hk), base64_facts.DecodeString_EncodeToString.
  destruct (Z.ltb_spec (len (nonce ++ flipBit body (i - 96) ++ tag)) 12) as [Hs|Hs].
  { rewrite len_app in Hs.
    pose proof (len_nonneg (flipBit body (i - 96) ++ tag)).
    unfold len in *. lia. }
  destruct (split_nonce nonce (flipBit body (i - 96) ++ tag) Hn) as [-> ->].
  fold tag in Hopen. rewrite Hopen. reflexivity.
Qed.


(** The hypothesis of [gcmOpen_zero_hash_key] is met by the identity
    cipher: GCM over it accepts ["jello"] in place of ["hello"]. *)
Example zero_hash_key_forgery :
  cipher.hashKey identityBlock = 0
  /\ cipher.gcmSeal identityBlock [] (repeat x00 12) hello []
     = Returns (hex "68656c6c6f00000000000000000000000000000001")
  /\ cipher.gcmOpen identityBlock [] (repeat x00 12)
       (hex "6a656c6c6f00000000000000000000000000000001") []
     = Returns (list_byte_of_string "jello", None).
Proof. vm_compute. repeat split. Qed.


(** ** The concrete scenarios of the specification *)

(** Key of 32 zero bytes, plaintext ["hello"]: a 44-character envelope
    that opens to ["hello"]; a key of 31 zero bytes is refused. *)
Example scenario_hello :
  Encrypt hello zeroKey zeroSource
  = (Returns ("AAAAAAAAAAAAAAAApsIsUSKLkI9/Yv/Opqkvq+85v02T"%string, None),
     {| pending := repeat x00 52; failure := EOF |})
  /\ String.length "AAAAAAAAAAAAAAAApsIsUSKLkI9/Yv/Opqkvq+85v02T" = 44%nat
  /\ Decrypt "AAAAAAAAAAAAAAAApsIsUSKLkI9/Yv/Opqkvq+85v02T" zeroKey
     = Returns (hello, None)
  /\ Decrypt "AAAAAAAAAAAAAAAApsIsUSKLkI9/Yv/Opqkvq+85v02T" (repeat x00 31)
     = Returns ([], Some (errors_New "key must be 32 bytes for AES-256")).
Proof. vm_compute. repeat split. Qed.

(** The empty plaintext: the envelope holds the nonce and the tag only. *)
Example scenario_empty :
  Encrypt [] zeroKey zeroSource
  = (Returns ("AAAAAAAAAAAAAAAAUw+K+8dFNrmpY7TxxMtziw=="%string, None),
     {| pending := repeat x00 52; failure := EOF |})
  /\ Decrypt "AAAAAAAAAAAAAAAAUw+K+8dFNrmpY7TxxMtziw==" zeroKey = Returns ([], None).
Proof. vm_compute. repeat split. Qed.

(** A source that runs dry: no nonce, no key. *)
Example scenario_dry_source :
  Encrypt hello zeroKey {| pending := repeat x00 11; failure := EOF |}
  = (Returns (EmptyString,
              Some (fmt_Errorf "nonce generation failed: %w" ErrUnexpectedEOF)),
     {| pending := []; failure := EOF |})
  /\ GenerateKey {| pending := []; failure := EOF |}
     = (([], Some (fmt_Errorf "key generation failed: %w" EOF)),
        {| pending := []; failure := EOF |})
  /\ GenerateKey {| pending := []; failure := sourceError "entropy unavailable" |}
     = (([], Some (fmt_Errorf "key generation failed: %w"
                     (sourceError "entropy unavailable"))),
        {| pending := []; failure := sourceError "entropy unavailable" |})
  /\ GenerateKey zeroSource
     = ((repeat x00 32, None), {| pending := repeat x00 32; failure := EOF |}).
Proof. vm_compute. repeat split. Qed.

(** One bit flipped in the nonce, in the ciphertext and in the tag of the
    ["hello"] envelope under the zero key: each is rejected. *)
Example scenario_tampered :
  map (fun i =>
         Decrypt (base64.EncodeToString
                    (flipBit (fst (base64.DecodeString
                                     "AAAAAAAAAAAAAAAApsIsUSKLkI9/Yv/Opqkvq+85v02T"))
                             i))
                 zeroKey)
      [0; 95; 96; 135; 136; 263]%nat
  = repeat (Returns ([], Some (fmt_Errorf "decryption failed: %w" errOpen))) 6.
Proof. vm_compute. reflexivity. Qed.

(** * Further properties of package [encrypt] *)

(** ** What [Encode] writes *)

Lemma Encode_digit_class (v k : Z) :
  base64.isDigit (base64.encode (base64.digit v k)) = true
  /\ base64.isNewline (base64.encode (base64.digit v k)) = false.
Proof.
  destruct (base64_facts.digit_class (base64.encode (base64.digit v k)))
    as (Hd & _ & Hn).
  - apply base64_facts.encode_is_digit, base64_facts.digit_range.
  - split; assumption.
Qed.

(** The encoder writes digits of the alphabet and padding only, in
    groups of four. *)
Lemma Encode_standard (src : bytes) :
  base64.wellPadded (base64.Encode src) = true
  /\ Forall (fun c => base64.isDigit c || base64.isPadding c = true)
            (base64.Encode src)
  /\ base64.significant (base64.Encode src) = base64.Encode src.
Proof.
  induction src as [ | b0 | b0 b1 | b0 b1 b2 rest IH ]
    using base64_facts.list_ind3.
  - repeat split. constructor.
  - rewrite base64_facts.Encode_1. cbv zeta.
    set (v := byte_to_Z b0 * 65536 + byte_to_Z x00 * 256 + byte_to_Z x00).
    destruct (Encode_digit_class v 18) as [D18 N18].
    destruct (Encode_digit_class v 12) as [D12 N12].
    cbn [base64.wellPadded base64.significant filter].
    rewrite D18, D12, N18, N12. repeat split.
    repeat constructor; rewrite ?D18, ?D12; reflexivity.
  - rewrite base64_facts.Encode_2. cbv zeta.
    set (v := byte_to_Z b0 * 65536 + byte_to_Z b1 * 256 + byte_to_Z x00).
    destruct (Encode_digit_class v 18) as [D18 N18].
    destruct (Encode_digit_class v 12) as [D12 N12].
    destruct (Encode_digit_class v 6) as [D6 N6].
    cbn [base64.wellPadded base64.significant filter].
    rewrite D18, D12, D6, N18, N12, N6. repeat split.
    repeat constructor; rewrite ?D18, ?D12, ?D6; reflexivity.
  - destruct IH as (IHw & IHf & IHs).
    rewrite base64_facts.Encode_cons3. cbv zeta.
    set (v := byte_to_Z b0 * 65536 + byte_to_Z b1 * 256 + byte_to_Z b2).
    destruct (Encode_digit_class v 18) as [D18 N18].
    destruct (Encode_digit_class v 12) as [D12 N12].
    destruct (Encode_digit_class v 6) as [D6 N6].
    destruct (Encode_digit_class v 0) as [D0 N0].
    split; [|split].
    + rewrite base64_facts.wellPadded_cons4, D18, D12, D6, D0, IHw.
      destruct (base64.Encode rest); reflexivity.
    + repeat constructor; rewrite ?D18, ?D12, ?D6, ?D0; trivial.
    + cbn [base64.significant filter]. rewrite N18, N12, N6, N0.
      cbn [negb]. fold (base64.significant (base64.Encode rest)).
      rewrite IHs. reflexivity.
Qed.

(** ** Successful decoding does not depend on the newlines *)

Lemma significant_idempotent (src : bytes) :
  base64.significant (base64.significant src) = base64.significant src.
Proof.
  induction src as [|x rest IH]; [reflexivity|].
  cbn [base64.significant filter].
  destruct (base64.isNewline x) eqn:E; cbn [negb].
  - exact IH.
  - cbn [base64.significant filter]. rewrite E. cbn [negb]. f_equal. exact IH.
Qed.

Lemma skipNewlines_significant_nil (src : bytes) (si : Z) :
  base64.significant src = [] -> fst (base64.skipNewlines src si) = [].
Proof.
  revert si. induction src as [|x rest IH]; intros si; [reflexivity|].
  cbn [base64.significant filter base64.skipNewlines].
  destruct (base64.isNewline x); cbn [negb]; [apply IH | discriminate].
Qed.

Lemma finish_significant (rest : bytes) (si si' : Z) (dbuf : list Z) (dlen : nat) :
  snd (base64.finish rest si dbuf dlen) = None ->
  base64.finish (base64.significant rest) si' dbuf dlen
  = (base64.quantum dbuf dlen, None)
  /\ base64.finish rest si dbuf dlen = (base64.quantum dbuf dlen, None).
Proof.
  intros H. pose proof (base64_facts.finish_ok _ _ _ _ H) as Hnil.
  rewrite Hnil. split; [reflexivity|].
  unfold base64.finish in *.
  destruct (base64.skipNewlines rest si) as [rest' s']. cbn [snd] in H.
  destruct rest'; [reflexivity | discriminate].
Qed.

(** What the decoder accepts it decodes to the same bytes with the
    newlines taken out. *)
Lemma decode_significant (src : bytes) :
  forall n si dbuf out n' si',
    base64.decode n src si dbuf = (out, None) ->
    base64.decode n' (base64.significant src) si' dbuf = (out, None).
Proof.
  induction src as [|x rest IH]; intros n si dbuf out n' si' H.
  - destruct dbuf; [exact H | discriminate].
  - cbn [base64.decode] in H.
    destruct (Z.eqb_spec (base64.decodeMap x) 255) as [Ex|Ex].
    + destruct (base64.isNewline x) eqn:Enl.
      { cbn [base64.significant filter]. rewrite Enl. cbn [negb]. eauto. }
      cbn [base64.significant filter]. rewrite Enl. cbn [negb].
      fold (base64.significant rest).
      destruct (Byte.eqb x base64.StdPadding) eqn:Epad; cbn [negb] in H;
        [|discriminate].
      cbn [base64.decode]. rewrite Enl, Epad.
      destruct (Z.eqb_spec (base64.decodeMap x) 255) as [_|]; [|contradiction].
      cbn [negb].
      destruct dbuf as [|d0 [|d1 [|d2 dbuf]]]; try discriminate.
      * pose proof (base64_facts.skipNewlines_significant rest (si + 1)) as Hsig.
        pose proof (base64_facts.skipNewlines_head rest (si + 1)) as Hhead.
        destruct (base64.skipNewlines rest (si + 1)) as [rest1 si1].
        cbn [fst] in Hsig, Hhead.
        destruct rest1 as [|c2 rest2]; [discriminate|].
        destruct (Byte.eqb c2 base64.StdPadding) eqn:E2; cbn [negb] in H;
          [|discriminate].
        rewrite <- Hsig. cbn [base64.significant filter].
        rewrite (Hhead c2 rest2 eq_refl). cbn [negb base64.skipNewlines].
        rewrite (Hhead c2 rest2 eq_refl), E2. cbn [negb].
        fold (base64.significant rest2).
        destruct (finish_significant rest2 (si1 + 1) (si' + 1 + 1) [d0; d1] 2)
          as [Hf1 Hf2]; [rewrite H; reflexivity|].
        rewrite Hf1. rewrite Hf2 in H. exact H.
      * destruct (finish_significant rest (si + 1) (si' + 1)
                    (d0 :: d1 :: d2 :: dbuf) 3) as [Hf1 Hf2];
          [rewrite H; reflexivity|].
        rewrite Hf1. rewrite Hf2 in H. exact H.
    + destruct (base64_facts.digit_class x Ex) as (_ & _ & Enl).
      cbn [base64.significant filter]. rewrite Enl. cbn [negb].
      fold (base64.significant rest). cbn [base64.decode].
      destruct (Z.eqb_spec (base64.decodeMap x) 255) as [|_]; [contradiction|].
      destruct dbuf as [|d0 [|d1 [|d2 [|d3 dbuf]]]]; eauto.
      destruct (base64.decode n rest (si + 1) []) as [out' err] eqn:E.
      injection H as <- ->.
      rewrite (IH _ _ _ _ n' (si' + 1) E). reflexivity.
Qed.

(** Two strings that differ only in CR and LF: when the decoder accepts
    one, it accepts the other with the same bytes. *)
Lemma DecodeString_newlines (s s' : string) (out : bytes) :
  base64.significant (list_byte_of_string s')
  = base64.significant (list_byte_of_string s) ->
  base64.DecodeString s = (out, None) ->
  base64.DecodeString s' = (out, None).
Proof.
  intros Hsig H. unfold base64.DecodeString in *.
  set (src := list_byte_of_string s) in *.
  set (src' := list_byte_of_string s') in *.
  assert (Hacc : snd (base64.decode (len src') src' 0 []) = None).
  { apply base64_facts.decode_accepts; [cbn; lia|]. rewrite Hsig.
    apply (base64_facts.decode_accepts src (len src) 0 []); [cbn; lia|].
    rewrite H. reflexivity. }
  destruct (base64.decode (len src') src' 0 []) as [out' e] eqn:E.
  cbn [snd] in Hacc. subst e.
  apply (decode_significant src' _ _ _ _ 0 0) in E.
  apply (decode_significant src _ _ _ _ 0 0) in H.
  rewrite Hsig in E. congruence.
Qed.

(** ** [Open] *)

(** The plaintext [Open] returns is sixteen bytes shorter than what it
    was given. *)
Lemma gcmOpen_length (b : cipher.Block) (nonce ciphertext data plaintext : bytes) :
  cipher.gcmOpen b [] nonce ciphertext data = Returns (plaintext, None) ->
  len ciphertext = len plaintext + 16.
Proof.
  unfold cipher.gcmOpen, cipher.gcmTagSize.
  destruct (negb (len nonce =? cipher.gcmStandardNonceSize)); [discriminate|].
  destruct (Z.ltb_spec (len ciphertext) 16) as [|Hlen]; [discriminate|].
  destruct (cipher.gcmMaxPlaintext + 16 <? len ciphertext); [discriminate|].
  match goal with
  | |- context [negb ?c] => destruct c; cbn [negb]
  end; [|discriminate].
  intros E. injection E as <-. cbn [app]. unfold len in *.
  rewrite gcm_facts.length_counterCrypt, length_firstn. lia.
Qed.

(** ** The envelope *)

(** X1. An envelope returned by [Encrypt] decodes to the twelve bytes
    taken from the random source followed by what [Seal] returned for
    them; the source is left advanced by exactly those twelve bytes. *)
Theorem envelope_layout :
  forall (plaintext key : bytes) (rd rd' : Reader) (envelope : string),
    Encrypt plaintext key rd = (Returns (envelope, None), rd') ->
    exists sealed,
      cipher.gcmSeal (aesBlock key) [] (firstn 12 (pending rd)) plaintext []
      = Returns sealed
      /\ base64.DecodeString envelope = (firstn 12 (pending rd) ++ sealed, None)
      /\ (12 <= length (pending rd))%nat
      /\ rd' = {| pending := skipn 12 (pending rd); failure := failure rd |}.
Proof.
  intros plaintext key rd rd' envelope H.
  apply Encrypt_returns in H.
  destruct H as (_ & nonce & sealed & Hread & _ & Hseal & ->).
  pose proof (io_ReadFull_ok _ _ _ _ Hread) as (_ & -> & _ & Hle).
  exists sealed. repeat split; trivial.
  - apply base64_facts.DecodeString_EncodeToString.
  - unfold io_ReadFull in Hread.
    destruct (Nat.leb_spec 12 (length (pending rd))); [|lia].
    congruence.
Qed.

Lemma envelope_layout_hello :
  exists sealed,
    cipher.gcmSeal (aesBlock zeroKey) [] (firstn 12 (pending zeroSource)) hello []
    = Returns sealed
    /\ base64.DecodeString "AAAAAAAAAAAAAAAApsIsUSKLkI9/Yv/Opqkvq+85v02T"
       = (firstn 12 (pending zeroSource) ++ sealed, None)
    /\ (12 <= length (pending zeroSource))%nat
    /\ {| pending := repeat x00 52; failure := EOF |}
       = {| pending := skipn 12 (pending zeroSource);
            failure := failure zeroSource |}.
Proof.
  apply (envelope_layout hello zeroKey zeroSource
           {| pending := repeat x00 52; failure := EOF |}).
  vm_compute. reflexivity.
Defined.

(** X2. An envelope returned by [Encrypt] is standard padded base64 and
    nothing else: its characters are digits of the standard alphabet and
    ['='], in groups of four with the padding at the end, and there is no
    line break in it. *)
Theorem envelope_is_standard_base64 :
  forall (plaintext key : bytes) (rd rd' : Reader) (envelope : string),
    Encrypt plaintext key rd = (Returns (envelope, None), rd') ->
    base64.wellPadded (list_byte_of_string envelope) = true
    /\ Forall (fun c => base64.isDigit c || base64.isPadding c = true)
              (list_byte_of_string envelope)
    /\ base64.significant (list_byte_of_string envelope)
       = list_byte_of_string envelope.
Proof.
  intros plaintext key rd rd' envelope H.
  apply Encrypt_returns in H.
  destruct H as (_ & nonce & sealed & _ & _ & _ & ->).
  unfold base64.EncodeToString. rewrite list_byte_of_string_of_list_byte.
  apply Encode_standard.
Qed.

Lemma envelope_is_standard_base64_hello :
  base64.wellPadded
    (list_byte_of_string "AAAAAAAAAAAAAAAApsIsUSKLkI9/Yv/Opqkvq+85v02T") = true
  /\ Forall (fun c => base64.isDigit c || base64.isPadding c = true)
            (list_byte_of_string "AAAAAAAAAAAAAAAApsIsUSKLkI9/Yv/Opqkvq+85v02T")
  /\ base64.significant
       (list_byte_of_string "AAAAAAAAAAAAAAAApsIsUSKLkI9/Yv/Opqkvq+85v02T")
     = list_byte_of_string "AAAAAAAAAAAAAAAApsIsUSKLkI9/Yv/Opqkvq+85v02T".
Proof.
  apply (envelope_is_standard_base64 hello zeroKey zeroSource
           {| pending := repeat x00 52; failure := EOF |}).
  vm_compute. reflexivity.
Defined.

(** ** The outcomes of [Encrypt] and [Decrypt] *)

(** X3. The three outcomes of [Encrypt] under a 32-byte key.  When the
    source holds fewer than twelve bytes: the empty string and the error
    of the source wrapped as "nonce generation failed" (with
    [io.ErrUnexpectedEOF] for a source that ended after some bytes), the
    source drained.  Otherwise twelve bytes are taken from the source,
    and the call returns an envelope when the plaintext fits one GCM call
    and panics in [Seal] when it does not. *)
Theorem Encrypt_outcomes :
  forall (plaintext key : bytes) (rd : Reader),
    length key = 32%nat ->
    ((length (pending rd) < 12)%nat ->
     Encrypt plaintext key rd
     = (Returns (EmptyString,
                 Some (fmt_Errorf "nonce generation failed: %w"
                         match pending rd with
                         | [] => failure rd
                         | _ :: _ => if error_is_EOF (failure rd)
                                     then ErrUnexpectedEOF else failure rd
                         end)),
        {| pending := []; failure := failure rd |}))
    /\ ((12 <= length (pending rd))%nat ->
        len plaintext <= cipher.gcmMaxPlaintext ->
        exists envelope,
          Encrypt plaintext key rd
          = (Returns (envelope, None),
             {| pending := skipn 12 (pending rd); failure := failure rd |}))
    /\ ((12 <= length (pending rd))%nat ->
        cipher.gcmMaxPlaintext < len plaintext ->
        Encrypt plaintext key rd
        = (Panics "crypto/cipher: message too large for GCM",
           {| pending := skipn 12 (pending rd); failure := failure rd |})).
Proof.
  intros plaintext key rd Hk. rewrite (Encrypt_32 _ _ _ Hk).
  unfold io_ReadFull. split; [|split].
  - intros Hrd.
    destruct (Nat.leb_spec 12 (length (pending rd))) as [|_]; [lia|].
    reflexivity.
  - intros Hrd Hp.
    destruct (Nat.leb_spec 12 (length (pending rd))) as [_|]; [|lia].
    destruct (gcm_facts.gcmSeal_succeeds (aesBlock key) []
                (firstn 12 (pending rd)) plaintext []) as [out Hout]; trivial.
    { unfold len. rewrite length_firstn. lia. }
    rewrite Hout. eauto.
  - intros Hrd Hp.
    destruct (Nat.leb_spec 12 (length (pending rd))) as [_|]; [|lia].
    unfold cipher.gcmSeal, cipher.gcmStandardNonceSize.
    assert (Hn : len (firstn 12 (pending rd)) = 12)
      by (unfold len; rewrite length_firstn; lia).
    rewrite Hn. cbn [Z.eqb Pos.eqb negb].
    destruct (Z.ltb_spec cipher.gcmMaxPlaintext (len plaintext)); [|lia].
    reflexivity.
Qed.

Lemma Encrypt_outcomes_hello :
  Encrypt hello zeroKey {| pending := repeat x00 11; failure := EOF |}
  = (Returns (EmptyString,
              Some (fmt_Errorf "nonce generation failed: %w" ErrUnexpectedEOF)),
     {| pending := []; failure := EOF |})
  /\ exists envelope,
       Encrypt hello zeroKey zeroSource
       = (Returns (envelope, None),
          {| pending := skipn 12 (pending zeroSource);
             failure := failure zeroSource |}).
Proof.
  split.
  - apply (Encrypt_outcomes hello zeroKey
             {| pending := repeat x00 11; failure := EOF |}).
    + reflexivity.
    + cbn. lia.
  - apply (Encrypt_outcomes hello zeroKey zeroSource).
    + reflexivity.
    + cbn. lia.
    + vm_compute. discriminate.
Defined.

(** What a successful [Decrypt] did. *)
Lemma Decrypt_success (envelope : string) (key plaintext : bytes) :
  Decrypt envelope key = Returns (plaintext, None) ->
  length key = 32%nat
  /\ exists data,
       base64.DecodeString envelope = (data, None)
       /\ 12 <= len data
       /\ cipher.gcmOpen (aesBlock key) [] (firstn 12 data) (skipn 12 data) []
          = Returns (plaintext, None).
Proof.
  intros H.
  assert (Hk : length key = 32%nat).
  { destruct (Nat.eq_dec (length key) 32) as [Hk|Hk]; [exact Hk|].
    rewrite (proj2 (wrong_key_length [] key envelope zeroSource Hk)) in H.
    discriminate. }
  split; [exact Hk|]. rewrite (Decrypt_32 _ _ Hk) in H.
  destruct (base64.DecodeString envelope) as [data [e|]]; [discriminate|].
  exists data. split; [reflexivity|].
  destruct (Z.ltb_spec (len data) 12) as [|Hlen]; [discriminate|].
  split; [exact Hlen|].
  destruct (cipher.gcmOpen (aesBlock key) [] (firstn 12 data) (skipn 12 data) [])
    as [[p [e|]]|m] eqn:Hopen; try discriminate.
  injection H as ->. reflexivity.
Qed.

(** X4. When [Decrypt] returns a plaintext, the envelope decoded to
    exactly 28 bytes more than the plaintext: twelve of nonce and sixteen
    of tag.  No envelope that decodes to fewer than 28 bytes is ever
    opened. *)
Theorem Decrypt_plaintext_length :
  forall (envelope : string) (key plaintext : bytes),
    Decrypt envelope key = Returns (plaintext, None) ->
    length key = 32%nat
    /\ exists data,
         base64.DecodeString envelope = (data, None)
         /\ len data = 12 + len plaintext + 16.
Proof.
  intros envelope key plaintext H.
  destruct (Decrypt_success _ _ _ H) as (Hk & data & Hdec & Hlen & Hopen).
  split; [exact Hk|]. exists data. split; [exact Hdec|].
  apply gcmOpen_length in Hopen.
  unfold len in *. rewrite length_skipn in Hopen. lia.
Qed.

Lemma Decrypt_plaintext_length_hello :
  length zeroKey = 32%nat
  /\ exists data,
       base64.DecodeString "AAAAAAAAAAAAAAAApsIsUSKLkI9/Yv/Opqkvq+85v02T"
       = (data, None)
       /\ len data = 12 + len hello + 16.
Proof.
  apply (Decrypt_plaintext_length
           "AAAAAAAAAAAAAAAApsIsUSKLkI9/Yv/Opqkvq+85v02T" zeroKey hello).
  vm_compute. reflexivity.
Defined.

(** X5. [Decrypt] does not see the line breaks of an envelope: an
    envelope that differs from one it opens only in CR and LF characters
    is opened to the same plaintext. *)
Theorem Decrypt_skips_line_breaks :
  forall (envelope envelope' : string) (key plaintext : bytes),
    base64.significant (list_byte_of_string envelope')
    = base64.significant (list_byte_of_string envelope) ->
    Decrypt envelope key = Returns (plaintext, None) ->
    Decrypt envelope' key = Returns (plaintext, None).
Proof.
  intros envelope envelope' key plaintext Hsig H.
  destruct (Decrypt_success _ _ _ H) as (Hk & data & Hdec & Hlen & Hopen).
  rewrite (Decrypt_32 envelope' key Hk).
  rewrite (DecodeString_newlines envelope envelope' data Hsig Hdec).
  destruct (Z.ltb_spec (len data) 12); [lia|].
  rewrite Hopen. reflexivity.
Qed.

Lemma Decrypt_skips_line_breaks_hello :
  Decrypt (string_of_list_byte
             (list_byte_of_string "AAAAAAAAAAAAAAAApsIsUSKL" ++ [x0d; x0a]
              ++ list_byte_of_string "kI9/Yv/Opqkvq+85v02T" ++ [x0a]))
          zeroKey
  = Returns (hello, None).
Proof.
  apply (Decrypt_skips_line_breaks
           "AAAAAAAAAAAAAAAApsIsUSKLkI9/Yv/Opqkvq+85v02T").
  - vm_compute. reflexivity.
  - vm_compute. reflexivity.
Defined.

(** ** Authentication *)

Lemma envelope_parts (data : bytes) :
  28 <= len data ->
  skipn 12 data = envelopeBody data ++ envelopeTag data
  /\ length (envelopeTag data) = 16%nat
  /\ length (envelopeBody data) = (length data - 28)%nat
  /\ len (envelopeNonce data) = 12.
Proof.
  intros H. unfold len, envelopeBody, envelopeTag, envelopeNonce in *.
  repeat split.
  - rewrite <- (firstn_skipn (length data - 28) (skipn 12 data)) at 1.
    f_equal. rewrite skipn_skipn. f_equal. lia.
  - rewrite length_skipn. lia.
  - rewrite length_firstn, length_skipn. lia.
  - rewrite length_firstn. lia.
Qed.

(** [Open] on a message that holds a tag and is not too long: the tag
    decides. *)
Lemma gcmOpen_tag (b : cipher.Block) (nonce body tag data : bytes) :
  len nonce = 12 -> length tag = 16%nat ->
  len body <= cipher.gcmMaxPlaintext ->
  tag = cipher.auth b body data (cipher.encryptZ b (cipher.deriveCounter nonce)) ->
  cipher.gcmOpen b [] nonce (body ++ tag) data
  = Returns (cipher.counterCrypt b body
               (cipher.gcmInc32 (cipher.deriveCounter nonce)), None).
Proof.
  intros Hn Ht Hb Htag. unfold cipher.gcmOpen, cipher.gcmStandardNonceSize,
    cipher.gcmTagSize.
  rewrite Hn. cbn [Z.eqb Pos.eqb negb].
  assert (Hl : len (body ++ tag) = len body + 16)
    by (unfold len; rewrite length_app, Ht; lia).
  rewrite !Hl. pose proof (len_nonneg body).
  destruct (Z.ltb_spec (len body + 16) 16); [lia|].
  destruct (Z.ltb_spec (cipher.gcmMaxPlaintext + 16) (len body + 16)); [lia|].
  rewrite length_app, Ht.
  replace (length body + 16 - 16)%nat with (length body) by lia.
  rewrite skipn_app, skipn_all, Nat.sub_diag, firstn_app, firstn_all,
    Nat.sub_diag. cbn [skipn firstn app]. rewrite app_nil_r.
  rewrite <- Htag.
  assert (E : cipher.ConstantTimeCompare tag tag = true)
    by (apply gcm_facts.ConstantTimeCompare_eq; reflexivity).
  rewrite E. reflexivity.
Qed.

(** X6. Authentication is the comparison of the tag and nothing else:
    under a 32-byte key, an envelope that decodes to at least 28 bytes
    (and no more than one GCM call handles) is opened when its last 16
    bytes are the GCM tag of its nonce and body, to the body decrypted in
    counter mode, and is rejected with the authentication error when
    they are not. *)
Theorem Decrypt_tag_decides :
  forall (envelope : string) (key data : bytes),
    length key = 32%nat ->
    base64.DecodeString envelope = (data, None) ->
    28 <= len data <= 28 + cipher.gcmMaxPlaintext ->
    (envelopeTag data = expectedTag key data ->
     Decrypt envelope key
     = Returns (cipher.counterCrypt (aesBlock key) (envelopeBody data)
                  (cipher.gcmInc32 (cipher.deriveCounter (envelopeNonce data))),
                None))
    /\ (envelopeTag data <> expectedTag key data ->
        Decrypt envelope key
        = Returns ([], Some (fmt_Errorf "decryption failed: %w" errOpen))
        /\ kind (fmt_Errorf "decryption failed: %w" errOpen)
           = Some AuthenticationFailed).
Proof.
  intros envelope key data Hk Hdec Hlen.
  destruct (envelope_parts data) as (Hsplit & Ht & Hb & Hn); [lia|].
  rewrite (Decrypt_32 _ _ Hk), Hdec.
  destruct (Z.ltb_spec (len data) 12); [lia|].
  fold (envelopeNonce data). rewrite Hsplit. unfold expectedTag. split.
  - intros Htag. rewrite (gcmOpen_tag _ _ _ _ _ Hn Ht); trivial.
    unfold len in *. lia.
  - intros Htag. rewrite gcmOpen_wrong_tag; trivial. split; reflexivity.
Qed.

Lemma Decrypt_tag_decides_hello :
  Decrypt "AAAAAAAAAAAAAAAApsIsUSKLkI9/Yv/Opqkvq+85v02T" zeroKey
  = Returns (cipher.counterCrypt (aesBlock zeroKey)
               (envelopeBody
                  (fst (base64.DecodeString
                          "AAAAAAAAAAAAAAAApsIsUSKLkI9/Yv/Opqkvq+85v02T")))
               (cipher.gcmInc32
                  (cipher.deriveCounter
                     (envelopeNonce
                        (fst (base64.DecodeString
                                "AAAAAAAAAAAAAAAApsIsUSKLkI9/Yv/Opqkvq+85v02T"))))),
             None)
  /\ Decrypt "AAAAAAAAAAAAAAAApsIsUSKLkAAAAAAAAAAAAAAAAAAA" zeroKey
     = Returns ([], Some (fmt_Errorf "decryption failed: %w" errOpen)).
Proof.
  split.
  - apply (Decrypt_tag_decides
             "AAAAAAAAAAAAAAAApsIsUSKLkI9/Yv/Opqkvq+85v02T" zeroKey
             (fst (base64.DecodeString
                     "AAAAAAAAAAAAAAAApsIsUSKLkI9/Yv/Opqkvq+85v02T"))).
    + reflexivity.
    + vm_compute. reflexivity.
    + vm_compute. split; discriminate.
    + vm_compute. reflexivity.
  - apply (Decrypt_tag_decides
             "AAAAAAAAAAAAAAAApsIsUSKLkAAAAAAAAAAAAAAAAAAA" zeroKey
             (fst (base64.DecodeString
                     "AAAAAAAAAAAAAAAApsIsUSKLkAAAAAAAAAAAAAAAAAAA"))).
    + reflexivity.
    + vm_compute. reflexivity.
    + vm_compute. split; discriminate.
    + vm_compute. discriminate.
Defined.

(** X7. A single bit flipped anywhere in the last sixteen bytes of a
    decoded envelope that [Encrypt] returned makes [Decrypt] reject it
    with the authentication error. *)
Theorem flipped_tag_bit_rejected :
  forall (plaintext key data : bytes) (rd rd' : Reader) (envelope : string)
         (i : nat),
    length key = 32%nat ->
    Encrypt plaintext key rd = (Returns (envelope, None), rd') ->
    base64.DecodeString envelope = (data, None) ->
    (8 * (12 + length plaintext) <= i < 8 * length data)%nat ->
    Decrypt (base64.EncodeToString (flipBit data i)) key
    = Returns ([], Some (fmt_Errorf "decryption failed: %w" errOpen))
    /\ kind (fmt_Errorf "decryption failed: %w" errOpen)
       = Some AuthenticationFailed.
Proof.
  intros plaintext key data rd rd' envelope i Hk HE Hdec Hi.
  split; [|reflexivity].
  exact (tag_tampering_detected plaintext key data rd rd' envelope i
           Hk HE Hdec Hi).
Qed.

Lemma flipped_tag_bit_rejected_hello :
  Decrypt (base64.EncodeToString
             (flipBit (fst (base64.DecodeString
                              "AAAAAAAAAAAAAAAApsIsUSKLkI9/Yv/Opqkvq+85v02T"))
                      200))
          zeroKey
  = Returns ([], Some (fmt_Errorf "decryption failed: %w" errOpen))
  /\ kind (fmt_Errorf "decryption failed: %w" errOpen)
     = Some AuthenticationFailed.
Proof.
  apply (flipped_tag_bit_rejected hello zeroKey
           (fst (base64.DecodeString
                   "AAAAAAAAAAAAAAAApsIsUSKLkI9/Yv/Opqkvq+85v02T"))
           zeroSource {| pending := repeat x00 52; failure := EOF |}
           "AAAAAAAAAAAAAAAApsIsUSKLkI9/Yv/Opqkvq+85v02T" 200).
  - reflexivity.
  - vm_compute. reflexivity.
  - vm_compute. reflexivity.
  - cbn. lia.
Defined.

(** ** Composition *)

(** X8. [Encrypt] loses nothing: two calls under the same key that
    return the same envelope, from whatever states of the random source,
    were given the same plaintext and drew the same nonce. *)
Theorem Encrypt_injective :
  forall (p1 p2 key : bytes) (rd1 rd1' rd2 rd2' : Reader) (envelope : string),
    Encrypt p1 key rd1 = (Returns (envelope, None), rd1') ->
    Encrypt p2 key rd2 = (Returns (envelope, None), rd2') ->
    p1 = p2 /\ nonceDrawn rd1 = nonceDrawn rd2.
Proof.
  intros p1 p2 key rd1 rd1' rd2 rd2' envelope H1 H2.
  apply Encrypt_returns in H1, H2.
  destruct H1 as (_ & n1 & s1 & Hr1 & Hn1 & Hs1 & E1).
  destruct H2 as (_ & n2 & s2 & Hr2 & Hn2 & Hs2 & E2).
  rewrite E1 in E2. apply base64_facts.EncodeToString_inj in E2.
  assert (En : n1 = n2).
  { rewrite <- (proj1 (split_nonce n1 s1 Hn1)), E2.
    apply (split_nonce n2 s2 Hn2). }
  assert (Es : s1 = s2).
  { rewrite <- (proj2 (split_nonce n1 s1 Hn1)), E2.
    apply (split_nonce n2 s2 Hn2). }
  subst n2 s2. split.
  - apply gcm_facts.gcmOpen_gcmSeal in Hs1, Hs2. congruence.
  - unfold nonceDrawn. rewrite Hr1, Hr2. reflexivity.
Qed.

Lemma Encrypt_injective_hello :
  hello = hello /\ nonceDrawn zeroSource = nonceDrawn twoNonceSource.
Proof.
  apply (Encrypt_injective hello hello zeroKey
           zeroSource {| pending := repeat x00 52; failure := EOF |}
           twoNonceSource {| pending := repeat x01 12; failure := EOF |}
           "AAAAAAAAAAAAAAAApsIsUSKLkI9/Yv/Opqkvq+85v02T").
  - vm_compute. reflexivity.
  - vm_compute. reflexivity.
Defined.

(** X9. The three functions together: from a random source that still
    holds 44 bytes, [GenerateKey] returns a key that [Encrypt] accepts,
    [Encrypt] returns an envelope for any plaintext within the size of one
    GCM call, and [Decrypt] opens it under that key to the plaintext.  The
    key is the first 32 bytes of the source and the nonce the next 12. *)
Theorem GenerateKey_Encrypt_Decrypt :
  forall (plaintext : bytes) (rd : Reader),
    (44 <= length (pending rd))%nat ->
    len plaintext <= cipher.gcmMaxPlaintext ->
    exists key rd1 envelope rd2,
      GenerateKey rd = ((key, None), rd1)
      /\ Encrypt plaintext key rd1 = (Returns (envelope, None), rd2)
      /\ Decrypt envelope key = Returns (plaintext, None)
      /\ key = firstn 32 (pending rd)
      /\ nonceDrawn rd1 = firstn 12 (skipn 32 (pending rd))
      /\ pending rd2 = skipn 44 (pending rd).
Proof.
  intros plaintext rd Hrd Hp.
  assert (Hgen : GenerateKey rd
                 = ((firstn 32 (pending rd), None),
                    {| pending := skipn 32 (pending rd); failure := failure rd |})).
  { unfold GenerateKey, io_ReadFull.
    destruct (Nat.leb_spec 32 (length (pending rd))); [reflexivity | lia]. }
  set (key := firstn 32 (pending rd)).
  set (rd1 := {| pending := skipn 32 (pending rd); failure := failure rd |}).
  assert (Hk : length key = 32%nat) by (subst key; rewrite length_firstn; lia).
  assert (Hrd1 : (12 <= length (pending rd1))%nat)
    by (cbn [rd1 pending]; rewrite length_skipn; lia).
  destruct (Encrypt_succeeds plaintext key rd1 Hk Hrd1 Hp) as (env & rd2 & HE).
  exists key, rd1, env, rd2.
  pose proof HE as HE'. apply Encrypt_returns in HE'.
  destruct HE' as (_ & nonce & sealed & Hread & Hn & Hseal & Henv).
  pose proof (io_ReadFull_ok _ _ _ _ Hread) as (_ & Hnonce & Hpend & _).
  repeat split; trivial.
  - subst env. rewrite (Decrypt_32 _ _ Hk),
      base64_facts.DecodeString_EncodeToString.
    pose proof (gcm_facts.gcmSeal_length _ _ _ _ _ Hseal) as Hlen.
    destruct (Z.ltb_spec (len (nonce ++ sealed)) 12) as [Hs|Hs].
    { rewrite len_app in Hs. pose proof (len_nonneg plaintext).
      unfold len in *. lia. }
    destruct (split_nonce nonce sealed Hn) as [-> ->].
    rewrite (gcm_facts.gcmOpen_gcmSeal _ _ _ _ _ Hseal). reflexivity.
  - unfold nonceDrawn. rewrite Hread. exact Hnonce.
  - rewrite Hpend. cbn [rd1 pending]. rewrite skipn_skipn. reflexivity.
Qed.

Lemma GenerateKey_Encrypt_Decrypt_hello :
  exists key rd1 envelope rd2,
    GenerateKey zeroSource = ((key, None), rd1)
    /\ Encrypt hello key rd1 = (Returns (envelope, None), rd2)
    /\ Decrypt envelope key = Returns (hello, None)
    /\ key = firstn 32 (pending zeroSource)
    /\ nonceDrawn rd1 = firstn 12 (skipn 32 (pending zeroSource))
    /\ pending rd2 = skipn 44 (pending zeroSource).
Proof.
  apply (GenerateKey_Encrypt_Decrypt hello zeroSource).
  - cbn. lia.
  - vm_compute. discriminate.
Defined.

(** * The other packages *)

(** ** Package [errors] *)

(** [Cause] is the loop of the source: an error with nothing inside is
    its own cause, any other has the cause of what is inside. *)
Lemma Cause_loop (err : option error) :
  errors.Cause err
  = match errors.Unwrap err with
    | None => err
    | Some unwrapped => errors.Cause (Some unwrapped)
    end.
Proof. destruct err as [[]|]; reflexivity. Qed.

Lemma Unwrap_root (e : error) : errors.Unwrap (Some (errors.root e)) = None.
Proof. induction e; cbn; trivial. Qed.

Lemma root_idempotent (e : error) : errors.root (errors.root e) = errors.root e.
Proof. induction e; cbn; trivial. Qed.

Lemma fold_Wrap_snoc (msgs : list string) (msg : string) (err : option error) :
  fold_left errors.Wrap (msgs ++ [msg]) err
  = errors.Wrap (fold_left errors.Wrap msgs err) msg.
Proof. rewrite fold_left_app. reflexivity. Qed.

(** X10. However many times an error is wrapped, its root cause stays
    the same, and unwrapping as many times as it was wrapped gives the
    error back; wrapping [nil] any number of times gives [nil]. *)
Theorem Cause_of_wrapped :
  forall (msgs : list string) (err : option error),
    errors.Cause (fold_left errors.Wrap msgs err) = errors.Cause err
    /\ (err <> None ->
        Nat.iter (length msgs) errors.Unwrap (fold_left errors.Wrap msgs err)
        = err)
    /\ (err = None -> fold_left errors.Wrap msgs err = None).
Proof.
  intros msgs err.
  induction msgs as [|msg msgs (IHc & IHu & IHn)] using rev_ind.
  - split; [|split]; trivial.
  - rewrite fold_Wrap_snoc, length_app, Nat.add_comm. cbn [length Nat.add].
    destruct (fold_left errors.Wrap msgs err) as [e|] eqn:E.
    + split; [|split].
      * exact IHc.
      * intros Hn. rewrite Nat.iter_succ_r. cbn [errors.Wrap errors.Unwrap
          fmt_Errorf]. apply IHu, Hn.
      * intros Hn. discriminate (IHn Hn).
    + split; [|split].
      * exact IHc.
      * intros Hn. destruct err as [e|]; [|congruence].
        cbn [errors.Cause] in IHc. discriminate.
      * reflexivity.
Qed.

(** X11. What [Cause] returns has nothing inside, so that [Cause] of it
    is itself; and [Cause] returns [nil] for [nil] only. *)
Theorem Cause_is_innermost :
  forall err : option error,
    errors.Unwrap (errors.Cause err) = None
    /\ errors.Cause (errors.Cause err) = errors.Cause err
    /\ (errors.Cause err = None <-> err = None).
Proof.
  intros [e|]; cbn [errors.Cause].
  - rewrite Unwrap_root, root_idempotent. repeat split; discriminate.
  - repeat split; trivial.
Qed.

(** X12. The root causes of what [Decrypt] reports: the key-length
    error, a corrupt-input error of the base64 decoder with the offset of
    the offending byte, the error of an envelope shorter than a nonce, or
    the authentication error of GCM; each error is of one of the kinds
    [InvalidKeyLength], [MalformedEnvelope] and [AuthenticationFailed]. *)
Theorem Decrypt_error_cause :
  forall (envelope : string) (key plaintext : bytes) (err : error),
    Decrypt envelope key = Returns (plaintext, Some err) ->
    (errors.Cause (Some err)
     = Some (errors_New "key must be 32 bytes for AES-256")
     /\ kind err = Some InvalidKeyLength /\ length key <> 32%nat)
    \/ ((exists offset,
            errors.Cause (Some err) = Some (CorruptInputError offset))
        /\ kind err = Some MalformedEnvelope)
    \/ (errors.Cause (Some err) = Some (errors_New "ciphertext too short")
        /\ kind err = Some MalformedEnvelope)
    \/ (errors.Cause (Some err) = Some errOpen
        /\ kind err = Some AuthenticationFailed).
Proof.
  intros envelope key plaintext err H.
  destruct (Nat.eq_dec (length key) 32) as [Hk|Hk].
  - rewrite (Decrypt_32 _ _ Hk) in H.
    destruct (base64.DecodeString envelope) as [data [e|]] eqn:Hdec.
    + right; left. injection H as _ <-.
      unfold base64.DecodeString in Hdec.
      destruct (base64_facts.decode_error _ _ _ _ e
                  (f_equal snd Hdec)) as [offset ->].
      split; [exists offset|]; reflexivity.
    + destruct (Z.ltb_spec (len data) 12) as [Hlt|Hge].
      * right; right; left. injection H as _ <-. split; reflexivity.
      * right; right; right.
        destruct (gcm_facts.gcmOpen_outcome (aesBlock key) (firstn 12 data)
                    (skipn 12 data) []) as [E|[p E]].
        { unfold len in *. rewrite length_firstn. lia. }
        -- rewrite E in H. injection H as _ <-. split; reflexivity.
        -- rewrite E in H. discriminate.
  - left. rewrite (proj2 (wrong_key_length [] key envelope zeroSource Hk)) in H.
    injection H as _ <-. split; [|split]; trivial.
Qed.

Lemma Decrypt_error_cause_examples :
  (errors.Cause (Some (fmt_Errorf "base64 decode failed: %w"
                         (CorruptInputError 3)))
   = Some (errors_New "key must be 32 bytes for AES-256")
   /\ kind (fmt_Errorf "base64 decode failed: %w" (CorruptInputError 3))
      = Some InvalidKeyLength
   /\ length zeroKey <> 32%nat)
  \/ ((exists offset,
          errors.Cause (Some (fmt_Errorf "base64 decode failed: %w"
                                (CorruptInputError 3)))
          = Some (CorruptInputError offset))
      /\ kind (fmt_Errorf "base64 decode failed: %w" (CorruptInputError 3))
         = Some MalformedEnvelope)
  \/ (errors.Cause (Some (fmt_Errorf "base64 decode failed: %w"
                            (CorruptInputError 3)))
      = Some (errors_New "ciphertext too short")
      /\ kind (fmt_Errorf "base64 decode failed: %w" (CorruptInputError 3))
         = Some MalformedEnvelope)
  \/ (errors.Cause (Some (fmt_Errorf "base64 decode failed: %w"
                            (CorruptInputError 3)))
      = Some errOpen
      /\ kind (fmt_Errorf "base64 decode failed: %w" (CorruptInputError 3))
         = Some AuthenticationFailed).
Proof.
  apply (Decrypt_error_cause "AAA*" zeroKey []).
  vm_compute. reflexivity.
Defined.

(** X13. When the random source fails, [errors.Cause] finds the
    source's own error under what [Encrypt] (with a 32-byte key) and
    [GenerateKey] report: the root cause of the reported error is that of
    the source's error, or [io.ErrUnexpectedEOF] when the source ended
    with [io.EOF] after some but not all of the bytes asked for. *)
Theorem randomness_error_cause :
  forall (plaintext key : bytes) (rd : Reader),
    length key = 32%nat ->
    (forall envelope err rd',
        Encrypt plaintext key rd = (Returns (envelope, Some err), rd') ->
        errors.Cause (Some err) = errors.Cause (Some (failure rd))
        \/ (errors.Cause (Some err) = Some ErrUnexpectedEOF
            /\ failure rd = EOF
            /\ (0 < length (pending rd) < 12)%nat))
    /\ (forall out err rd',
           GenerateKey rd = ((out, Some err), rd') ->
           errors.Cause (Some err) = errors.Cause (Some (failure rd))
           \/ (errors.Cause (Some err) = Some ErrUnexpectedEOF
               /\ failure rd = EOF
               /\ (0 < length (pending rd) < 32)%nat)).
Proof.
  intros plaintext key rd Hk. split.
  - intros envelope err rd' H. rewrite (Encrypt_32 _ _ _ Hk) in H.
    unfold io_ReadFull in H.
    destruct (Nat.leb_spec 12 (length (pending rd))) as [Hle|Hlt].
    + destruct (cipher.gcmSeal _ _ _ _ _); discriminate.
    + injection H as _ <- _.
      destruct (pending rd) as [|x rest]; [left; reflexivity|].
      destruct (failure rd); cbn [error_is_EOF]; try (left; reflexivity).
      right. cbn [length] in *. split; [reflexivity|]. split; [reflexivity|lia].
  - intros out err rd' H. unfold GenerateKey, io_ReadFull in H.
    destruct (Nat.leb_spec 32 (length (pending rd))) as [Hle|Hlt];
      [discriminate|].
    injection H as _ <- _.
    destruct (pending rd) as [|x rest]; [left; reflexivity|].
    destruct (failure rd); cbn [error_is_EOF]; try (left; reflexivity).
    right. cbn [length] in *. split; [reflexivity|]. split; [reflexivity|lia].
Qed.

Lemma randomness_error_cause_short :
  (forall envelope err rd',
      Encrypt hello zeroKey {| pending := repeat x00 11; failure := EOF |}
      = (Returns (envelope, Some err), rd') ->
      errors.Cause (Some err)
      = errors.Cause
          (Some (failure {| pending := repeat x00 11; failure := EOF |}))
      \/ (errors.Cause (Some err) = Some ErrUnexpectedEOF
          /\ failure {| pending := repeat x00 11; failure := EOF |} = EOF
          /\ (0 < length (pending {| pending := repeat x00 11;
                                     failure := EOF |}) < 12)%nat))
  /\ (forall out err rd',
         GenerateKey {| pending := repeat x00 11; failure := EOF |}
         = ((out, Some err), rd') ->
         errors.Cause (Some err)
         = errors.Cause
             (Some (failure {| pending := repeat x00 11; failure := EOF |}))
         \/ (errors.Cause (Some err) = Some ErrUnexpectedEOF
             /\ failure {| pending := repeat x00 11; failure := EOF |} = EOF
             /\ (0 < length (pending {| pending := repeat x00 11;
                                        failure := EOF |}) < 32)%nat)).
Proof.
  apply (randomness_error_cause hello zeroKey
           {| pending := repeat x00 11; failure := EOF |}).
  reflexivity.
Defined.

(** ** Package [config] *)

(** X14. [GetEnv] returns the value of the variable exactly when the
    variable is set to a non-empty string, and the default in every other
    case: a variable set to the empty string is treated like one that is
    not set.  With a non-empty default the result is never empty. *)
Theorem GetEnv_spec :
  forall (env : Map string) (key def : string),
    (forall v, env key = Some v -> v <> EmptyString ->
               config.GetEnv env key def = v)
    /\ (env key = None \/ env key = Some EmptyString ->
        config.GetEnv env key def = def)
    /\ config.GetEnv (Map_insert key EmptyString env) key def
       = config.GetEnv Map_empty key def
    /\ (def <> EmptyString -> config.GetEnv env key def <> EmptyString).
Proof.
  intros env key def. unfold config.GetEnv, config.os_Getenv, Map_insert,
    Map_empty. rewrite String.eqb_refl. cbn.
  repeat split.
  - intros v -> Hv. destruct (String.eqb_spec v EmptyString); [contradiction|].
    reflexivity.
  - intros [-> | ->]; reflexivity.
  - intros Hd. destruct (env key) as [v|]; cbn; [|exact Hd].
    destruct (String.eqb_spec v EmptyString); cbn; trivial.
Qed.

(** ** Package [cache] *)

Lemma int32_small (z : Z) : - 2 ^ 31 <= z < 2 ^ 31 -> cache.int32 z = z.
Proof.
  intros H. unfold cache.int32. rewrite Z.mod_small; lia.
Qed.

Lemma Set_unlocked (c : cache.MemoryCache) (m : Map any) (key : string)
  (value : any) :
  cache.mu c = cache.unlocked -> cache.data c = Some m ->
  cache.Set_ c key value
  = Some (Returns tt, {| cache.mu := cache.unlocked;
                         cache.data := Some (Map_insert key value m) |}).
Proof. intros Hmu Hd. unfold cache.Set_. rewrite Hmu, Hd. reflexivity. Qed.

Lemma SetAll_unlocked (writes : list (string * any)) :
  forall (c : cache.MemoryCache) (m : Map any),
    cache.mu c = cache.unlocked -> cache.data c = Some m ->
    exists m',
      cache.SetAll c writes
      = Some (Returns tt, {| cache.mu := cache.unlocked; cache.data := Some m' |})
      /\ forall k, m' k = match cache.lastWrite k writes with
                          | Some v => Some v
                          | None => m k
                          end.
Proof.
  induction writes as [|[key value] rest IH]; intros c m Hmu Hd.
  - exists m. split; [|reflexivity]. cbn [cache.SetAll].
    destruct c as [mu0 d]. cbn in Hmu, Hd. subst. reflexivity.
  - cbn [cache.SetAll]. rewrite (Set_unlocked c m key value Hmu Hd).
    destruct (IH {| cache.mu := cache.unlocked;
                    cache.data := Some (Map_insert key value m) |}
                 (Map_insert key value m) eq_refl eq_refl) as (m' & HS & Hm').
    exists m'. split; [exact HS|]. intros k. rewrite Hm'.
    cbn [cache.lastWrite]. destruct (cache.lastWrite k rest); [reflexivity|].
    unfold Map_insert. destruct (String.eqb k key); reflexivity.
Qed.

(** X15. Last write wins.  On a cache that is not locked and holds a
    map (one from [New], say), any run of [Set] calls from one caller
    returns, and leaves the cache unlocked; [Get] then returns, for every
    key, the value of the last write to it with [true] (also when that
    value is [nil]), and for a key never written what the cache held
    before; [Get] leaves the cache as it is. *)
Theorem Set_last_write_wins :
  forall (c : cache.MemoryCache) (m : Map any) (writes : list (string * any))
         (key : string),
    cache.mu c = cache.unlocked ->
    cache.data c = Some m ->
    exists c',
      cache.SetAll c writes = Some (Returns tt, c')
      /\ cache.mu c' = cache.unlocked
      /\ cache.Get c' key
         = Some (Returns match cache.lastWrite key writes with
                         | Some v => (v, true)
                         | None => Map_lookup anyNil m key
                         end, c').
Proof.
  intros c m writes key Hmu Hd.
  destruct (SetAll_unlocked writes c m Hmu Hd) as (m' & HS & Hm').
  eexists. split; [exact HS|]. split; [reflexivity|].
  unfold cache.Get, cache.contents, Map_lookup.
  cbn [cache.mu cache.data].
  change (cache.RLock cache.unlocked)
    with ({| cache.w := false; cache.readerCount := 1; cache.readerWait := 0 |},
          true).
  cbn iota. rewrite Hm'.
  destruct (cache.lastWrite key writes); [reflexivity|].
  destruct (m key); reflexivity.
Qed.

Lemma Set_last_write_wins_example :
  exists c',
    cache.SetAll cache.New
      [("a"%string, anyInt 1); ("b"%string, anyString "x"); ("a"%string, anyNil)]
    = Some (Returns tt, c')
    /\ cache.mu c' = cache.unlocked
    /\ cache.Get c' "a"
       = Some (Returns match cache.lastWrite "a"
                               [("a"%string, anyInt 1);
                                ("b"%string, anyString "x");
                                ("a"%string, anyNil)] with
                       | Some v => (v, true)
                       | None => Map_lookup anyNil Map_empty "a"
                       end, c').
Proof.
  apply (Set_last_write_wins cache.New Map_empty
           [("a"%string, anyInt 1); ("b"%string, anyString "x");
            ("a"%string, anyNil)] "a").
  - reflexivity.
  - reflexivity.
Defined.

Lemma wellFormed_bounds (rw : cache.RWMutex) :
  cache.wellFormed rw = true ->
  (cache.w rw = true
   /\ - 2 ^ 30 <= cache.readerCount rw < -1
   /\ 0 <= cache.readerWait rw <= cache.readerCount rw + 2 ^ 30)
  \/ (cache.w rw = false
      /\ 0 <= cache.readerCount rw < 2 ^ 30 - 1
      /\ cache.readerWait rw = 0).
Proof.
  unfold cache.wellFormed, cache.rwmutexMaxReaders.
  destruct (cache.w rw); intros H; [left | right];
    repeat (apply andb_prop in H; destruct H as [H ?]);
    repeat match goal with
           | H : (_ <=? _) = true |- _ => apply Z.leb_le in H
           | H : (_ <? _) = true |- _ => apply Z.ltb_lt in H
           | H : (_ =? _) = true |- _ => apply Z.eqb_eq in H
           end; split; try reflexivity; lia.
Qed.



(** ** Package [response] *)

(** [c.JSON] on a context on which nothing has been written yet. *)
Lemma gin_JSON_unsent (T : Type) (marshal : T -> result bytes)
  (keys : Map any) (st : Z) (ct : list string) (werr : option error)
  (code : Z) (obj : T) :
  let sent := if 0 <? code then code else st in
  let ct' := match ct with [] => gin.jsonContentType | _ :: _ => ct end in
  gin.JSON T marshal (gin.unsent keys st ct werr) code obj
  = if negb (gin.bodyAllowedForStatus code) then
      Returns (gin.sent keys code (code, ct') ct' 0 [] werr [] false)
    else
      match marshal obj with
      | Err e =>
          Returns {| gin.Keys := keys;
                     gin.Writer :=
                       {| gin.ResponseWriter :=
                            {| net_http.ContentType := ct';
                               net_http.wroteHeader := None;
                               net_http.body := [];
                               net_http.writeError := werr |};
                          gin.size := gin.noWritten;
                          gin.status := sent |};
                     gin.Errors := [e];
                     gin.aborted := true |}
      | Ok doc =>
          match net_http.checkWriteHeaderCode sent with
          | Some msg => Panics msg
          | None =>
              match werr with
              | Some err =>
                  Returns (gin.sent keys sent (sent, ct') ct' 0 [] werr
                             [err] true)
              | None =>
                  Returns (gin.sent keys sent (sent, ct') ct' (length doc)
                             [doc] werr [] false)
              end
          end
      end.
Proof.
  cbn zeta.
  assert (Hw : gin.WriteHeader (gin.Writer (gin.unsent keys st ct werr)) code
               = {| gin.ResponseWriter :=
                      {| net_http.ContentType := ct;
                         net_http.wroteHeader := None;
                         net_http.body := [];
                         net_http.writeError := werr |};
                    gin.size := gin.noWritten;
                    gin.status := if 0 <? code then code else st |}).
  { unfold gin.WriteHeader, gin.unsent, gin.Written. cbn.
    destruct (0 <? code); cbn; [|reflexivity].
    destruct (Z.eqb_spec st code) as [->|]; reflexivity. }
  assert (Hct : forall s,
             gin.writeContentType
               {| gin.ResponseWriter :=
                    {| net_http.ContentType := ct;
                       net_http.wroteHeader := None;
                       net_http.body := [];
                       net_http.writeError := werr |};
                  gin.size := gin.noWritten;
                  gin.status := s |} gin.jsonContentType
             = {| gin.ResponseWriter :=
                    {| net_http.ContentType :=
                         match ct with
                         | [] => gin.jsonContentType
                         | _ :: _ => ct
                         end;
                       net_http.wroteHeader := None;
                       net_http.body := [];
                       net_http.writeError := werr |};
                  gin.size := gin.noWritten;
                  gin.status := s |}).
  { intros s. unfold gin.writeContentType. cbn. destruct ct; reflexivity. }
  unfold gin.JSON. rewrite Hw, Hct.
  destruct (gin.bodyAllowedForStatus code) eqn:Hb; cbn [negb].
  - destruct (marshal obj) as [doc|e]; [|reflexivity].
    unfold gin.Write, gin.WriteHeaderNow, gin.Written, net_http.WriteHeader.
    cbn [gin.size gin.status gin.ResponseWriter net_http.wroteHeader
         net_http.ContentType net_http.body net_http.writeError].
    change (negb (negb (gin.noWritten =? gin.noWritten))) with true. cbn iota.
    destruct (net_http.checkWriteHeaderCode _); [reflexivity|].
    unfold net_http.Write.
    cbn [gin.size gin.status gin.ResponseWriter net_http.wroteHeader
         net_http.ContentType net_http.body net_http.writeError].
    destruct werr as [err|]; [reflexivity|].
    unfold gin.sent, gin.fail, len. cbn [app Z.add]. reflexivity.
  - assert (Hpos : 100 <= code <= 999).
    { unfold gin.bodyAllowedForStatus, net_http.StatusNoContent,
        net_http.StatusNotModified in Hb.
      destruct (Z.leb_spec 100 code), (Z.leb_spec code 199); cbn in Hb;
        try lia;
        destruct (Z.eqb_spec code 204); try lia;
        destruct (Z.eqb_spec code 304); try lia; discriminate. }
    destruct (Z.ltb_spec 0 code); [|lia].
    unfold gin.WriteHeaderNow, gin.Written, net_http.WriteHeader,
      net_http.checkWriteHeaderCode.
    cbn [gin.size gin.status gin.ResponseWriter net_http.wroteHeader
         net_http.ContentType net_http.body net_http.writeError].
    change (negb (negb (gin.noWritten =? gin.noWritten))) with true. cbn iota.
    destruct (Z.ltb_spec code 100); [lia|].
    destruct (Z.ltb_spec 999 code); [lia|]. reflexivity.
Qed.

Lemma default_message_nonempty (msg word : string) :
  word <> EmptyString ->
  (if String.eqb msg EmptyString then word else msg) <> EmptyString.
Proof.
  intros Hw. destruct (String.eqb_spec msg EmptyString); assumption.
Qed.

Lemma checkWriteHeaderCode_spec (code : Z) :
  (code < 100 \/ 999 < code ->
   net_http.checkWriteHeaderCode code
   = Some ("invalid WriteHeader code "
           ++ NilZero.string_of_int (Z.to_int code))%string)
  /\ (100 <= code <= 999 -> net_http.checkWriteHeaderCode code = None).
Proof.
  unfold net_http.checkWriteHeaderCode.
  destruct (Z.ltb_spec code 100), (Z.ltb_spec 999 code); cbn [orb];
    split; intros; try reflexivity; lia.
Qed.



(** [c.JSON] on a context whose header is out. *)
Lemma gin_JSON_sent (T : Type) (marshal : T -> result bytes)
  (keys : Map any) (st : Z) (header : Z * list string) (ct : list string)
  (n : nat) (chunks : list bytes) (werr : option error) (errs : list error)
  (ab : bool) (code : Z) (obj : T) :
  let ct' := match ct with [] => gin.jsonContentType | _ :: _ => ct end in
  gin.JSON T marshal (gin.sent keys st header ct n chunks werr errs ab) code obj
  = Returns
      (if negb (gin.bodyAllowedForStatus code) then
         gin.sent keys st header ct' n chunks werr errs ab
       else
         match marshal obj with
         | Err e => gin.sent keys st header ct' n chunks werr (errs ++ [e]) true
         | Ok doc =>
             match werr with
             | Some err =>
                 gin.sent keys st header ct' n chunks werr (errs ++ [err]) true
             | None =>
                 gin.sent keys st header ct' (n + length doc) (chunks ++ [doc])
                   werr errs ab
             end
         end).
Proof.
  cbn zeta.
  assert (Hwritten : forall s, negb (Z.of_nat s =? gin.noWritten) = true).
  { intros s. unfold gin.noWritten.
    destruct (Z.eqb_spec (Z.of_nat s) (-1)); [lia | reflexivity]. }
  assert (Hw : gin.WriteHeader
                 (gin.Writer (gin.sent keys st header ct n chunks werr errs ab))
                 code
               = gin.Writer (gin.sent keys st header ct n chunks werr errs ab)).
  { unfold gin.WriteHeader, gin.Written, gin.sent.
    cbn [gin.Writer gin.size gin.status]. rewrite Hwritten.
    destruct ((0 <? code) && negb (st =? code)); reflexivity. }
  unfold gin.JSON. rewrite Hw.
  assert (Hct : gin.writeContentType
                  (gin.Writer (gin.sent keys st header ct n chunks werr errs ab))
                  gin.jsonContentType
                = gin.Writer
                    (gin.sent keys st header
                       match ct with
                       | [] => gin.jsonContentType
                       | _ :: _ => ct
                       end n chunks werr errs ab)).
  { unfold gin.writeContentType, gin.sent. cbn. destruct ct; reflexivity. }
  rewrite Hct.
  unfold gin.Write, gin.WriteHeaderNow, gin.Written, gin.sent.
  cbn [gin.Writer gin.size gin.status gin.Keys gin.Errors gin.aborted
       gin.ResponseWriter].
  rewrite Hwritten. cbn [negb].
  destruct (gin.bodyAllowedForStatus code); cbn [negb]; [|reflexivity].
  destruct (marshal obj) as [doc|e]; [|reflexivity].
  unfold net_http.Write, gin.fail, len.
  cbn [net_http.wroteHeader net_http.writeError net_http.body
       net_http.ContentType gin.ResponseWriter gin.size gin.status
       gin.Keys gin.Errors].
  destruct werr as [err|]; cbn iota.
  - rewrite Z.add_0_r. reflexivity.
  - rewrite <- Nat2Z.inj_add. reflexivity.
Qed.

(** What one call of the package does on a context whose header is out. *)
Lemma call_sent (enc : response.Encoder) (keys : Map any) (st : Z)
  (header : Z * list string) (ct : list string) (n : nat)
  (chunks : list bytes) (werr : option error) (errs : list error) (ab : bool)
  (f : response.Call) :
  exists ct' n' added errs' ab',
    response.call (gin.sent keys st header ct n chunks werr errs ab) f
    = Returns (gin.sent keys st header ct' n' (chunks ++ added) werr errs' ab')
    /\ (length added <= 1)%nat
    /\ Forall (fun doc =>
                 werr = None
                 /\ exists r,
                      response.json_Marshal r = Ok doc
                      /\ response.Response.RequestID r
                         = response.getRequestID
                             (gin.sent keys st header ct n chunks werr errs ab)
                      /\ response.Response.Message r <> EmptyString)
              added.
Proof.
  assert (G : forall opts,
             exists ct' n' added errs' ab',
               response.JSON (gin.sent keys st header ct n chunks werr errs ab)
                 opts
               = Returns (gin.sent keys st header ct' n' (chunks ++ added)
                            werr errs' ab')
               /\ (length added <= 1)%nat
               /\ Forall (fun doc =>
                            werr = None
                            /\ exists r,
                                 response.json_Marshal r = Ok doc
                                 /\ response.Response.RequestID r
                                    = response.getRequestID
                                        (gin.sent keys st header ct n chunks
                                           werr errs ab)
                                 /\ response.Response.Message r <> EmptyString)
                         added).
  { intros opts. unfold response.JSON. rewrite gin_JSON_sent. cbn zeta.
    match goal with
    | |- context [response.json_Marshal ?r] => set (resp := r)
    end.
    destruct (negb (gin.bodyAllowedForStatus _)).
    { exists (match ct with [] => gin.jsonContentType | _ :: _ => ct end),
        n, [], errs, ab.
      rewrite app_nil_r. split; [reflexivity|]. split; [cbn; lia | constructor]. }
    destruct (response.json_Marshal resp) as [doc|e] eqn:Hm.
    - destruct werr as [err|].
      + eexists _, n, [], _, _. rewrite app_nil_r.
        split; [reflexivity|]. split; [cbn; lia | constructor].
      + eexists _, _, [doc], _, _.
        split; [reflexivity|]. split; [cbn; lia|].
        constructor; [|constructor]. split; [reflexivity|].
        exists resp. split; [exact Hm|]. split; [reflexivity|].
        subst resp. cbn [response.Response.Message].
        apply default_message_nonempty.
        destruct (response.Option.Code opts =? response.SuccessCode);
          [discriminate|].
        destruct (response.Option.Code opts =? response.WarnCode);
          [discriminate|].
        destruct (response.Option.Code opts =? response.ErrorCode);
          discriminate.
    - eexists _, n, [], _, _. rewrite app_nil_r.
      split; [reflexivity|]. split; [cbn; lia | constructor]. }
  destruct f as [opts|msg data|msg data|msg data httpStatus];
    cbn [response.call]; unfold response.Success, response.Warn,
    response.Error; apply G.
Qed.

